(** * CaseCraft template and print pipeline: a shallow embedding

    The geometry/graphics core of the phone-case customiser
    ([App.tsx], [components/PhoneEditor.tsx], [types.ts]):

    - the colour classifier of template shapes ([getShapeColorType]),
    - the shape-to-path conversion ([shapeToPath]),
    - the template builder ([processSingleTemplate]),
    - the "fit to case" action ([handleAutoFill]),
    - the print compositor ([generatePrintFile]), as the sequence of
      canvas calls it issues, with the canvas transform semantics,
    - the zoom handlers of the editor ([handleWheel], [handleTouchStart],
      [handleTouchMove], [handleTouchEnd]),
    - the editor's own rendering of the design and its pointer handlers
      for the image and the texts,
    - the text, colour, upload, template and order actions of the
      application, and the colour spectrum bar.

    Numbers.  A JavaScript [number] is modelled by an exact rational
    ([Q]): the arithmetic of the source is kept operation for operation,
    rounding and the special values (NaN, infinities) are outside the
    model.  Square roots and trigonometry, which are not rational, are
    supplied by the host and appear as parameters. *)

From Stdlib Require Import QArith Qminmax Qreduction Qround Lqa.
From Stdlib Require Import ZArith NArith Lia Bool List String Ascii.
From Stdlib Require HexadecimalString.
Import ListNotations.

Local Open Scope Q_scope.
Local Open Scope string_scope.

(* ================================================================= *)
(** ** JavaScript primitives *)

(** [Math.max], [Math.min] and [Math.sign] on the numbers of the model. *)
Definition Math_max (a b : Q) : Q := Qmax a b.
Definition Math_min (a b : Q) : Q := Qmin a b.

Definition Math_sign (a : Q) : Q :=
  match a ?= 0 with
  | Lt => -1
  | Eq => 0
  | Gt => 1
  end.

(** [a > b] on numbers. *)
Definition Qgt_bool (a b : Q) : bool := negb (Qle_bool a b).

(** Truthiness: a number is falsy when it is zero, a string when it is
    empty, an optional value when it is absent. *)
Definition truthy_num (a : Q) : bool := negb (Qeq_bool a 0).
Definition truthy_str (s : string) : bool := negb (s =? "").

Definition truthy_opt_num (a : option Q) : bool :=
  match a with
  | Some v => truthy_num v
  | None => false
  end.

Definition truthy_opt_str (s : option string) : bool :=
  match s with
  | Some v => truthy_str v
  | None => false
  end.

(** [a ?? b] on an optional number. *)
Definition nullish_num (a : option Q) (b : Q) : Q :=
  match a with
  | Some v => v
  | None => b
  end.

(** [s.replace(pat, rep)] with a string pattern: the first occurrence
    only. *)
Fixpoint drop (n : nat) (s : string) : string :=
  match n, s with
  | O, _ => s
  | S n', String _ s' => drop n' s'
  | S _, EmptyString => EmptyString
  end.

Fixpoint replace_first (pat rep s : string) : string :=
  if String.prefix pat s then rep ++ drop (String.length pat) s
  else match s with
       | EmptyString => EmptyString
       | String c s' => String c (replace_first pat rep s')
       end.

(** Outcome of a promise: resolved with a value or rejected with a
    diagnostic. *)
Inductive outcome (A : Type) : Type :=
| Resolved (a : A)
| Rejected (msg : string).
Arguments Resolved {A} a.
Arguments Rejected {A} msg.

(* ================================================================= *)
(** ** Path data

    A path-data string is built by template literals.  It is kept as the
    sequence of the literal's parts: text chunks and interpolated
    numbers.  The text of a number depends on its value only, so an
    interpolated number is kept in lowest terms. *)

Inductive piece : Type :=
| Txt (s : string)
| Num (n : Q).

Definition pathdata := list piece.

(** [${e}] inside a template literal. *)
Definition interp (e : Q) : piece := Num (Qred e).

(** A plain string as path data; the empty string has no part. *)
Definition of_string (s : string) : pathdata :=
  if s =? "" then [] else [Txt s].

(** Truthiness of the string: some part is not empty. *)
Definition piece_truthy (p : piece) : bool :=
  match p with
  | Txt s => truthy_str s
  | Num _ => true
  end.

Definition path_truthy (p : pathdata) : bool := existsb piece_truthy p.

(** *** Reading generated path data

    The contours that the builder generates use the commands [M], [L],
    [Q], [h], [v] and [Z].  [read_path] recovers the drawing commands
    from the parts; it gives up on anything else (authored [d]
    attributes, arcs). *)

Inductive token : Type :=
| TCmd (c : ascii)
| TNum (n : Q)
| TMinus
| TOther.

Definition is_letter (c : ascii) : bool :=
  let n := nat_of_ascii c in
  ((65 <=? n) && (n <=? 90) || (97 <=? n) && (n <=? 122))%nat.

Fixpoint tokens_of_text (s : string) : list token :=
  match s with
  | EmptyString => []
  | String c s' =>
      if Ascii.eqb c " " then tokens_of_text s'
      else if is_letter c then TCmd c :: tokens_of_text s'
      else if Ascii.eqb c "-" then TMinus :: tokens_of_text s'
      else TOther :: tokens_of_text s'
  end.

Definition tokens_of_piece (p : piece) : list token :=
  match p with
  | Txt s => tokens_of_text s
  | Num n => [TNum n]
  end.

Definition tokens (p : pathdata) : list token := flat_map tokens_of_piece p.

(** A textual minus sign in front of an interpolated number negates it;
    in front of the text of a negative number it is not a number. *)
Fixpoint signed (ts : list token) : option (list token) :=
  match ts with
  | [] => Some []
  | TMinus :: TNum n :: rest =>
      if Qle_bool 0 n then option_map (cons (TNum (- n))) (signed rest)
      else None
  | TMinus :: _ => None
  | TOther :: _ => None
  | t :: rest => option_map (cons t) (signed rest)
  end.

Inductive segment : Type :=
| MoveTo (x y : Q)
| LineTo (x y : Q)
| QuadTo (x1 y1 x y : Q)
| HRel (dx : Q)
| VRel (dy : Q)
| ClosePath.

Fixpoint segments (ts : list token) : option (list segment) :=
  match ts with
  | [] => Some []
  | TCmd "M" :: TNum x :: TNum y :: rest =>
      option_map (cons (MoveTo x y)) (segments rest)
  | TCmd "L" :: TNum x :: TNum y :: rest =>
      option_map (cons (LineTo x y)) (segments rest)
  | TCmd "Q" :: TNum x1 :: TNum y1 :: TNum x :: TNum y :: rest =>
      option_map (cons (QuadTo x1 y1 x y)) (segments rest)
  | TCmd "h" :: TNum dx :: rest => option_map (cons (HRel dx)) (segments rest)
  | TCmd "v" :: TNum dy :: rest => option_map (cons (VRel dy)) (segments rest)
  | TCmd "Z" :: rest => option_map (cons ClosePath) (segments rest)
  | _ => None
  end.

Definition read_path (p : pathdata) : option (list segment) :=
  match signed (tokens p) with
  | Some ts => segments ts
  | None => None
  end.

(** Numbers of a segment in lowest terms, to compare contours. *)
Definition canon_segment (s : segment) : segment :=
  match s with
  | MoveTo x y => MoveTo (Qred x) (Qred y)
  | LineTo x y => LineTo (Qred x) (Qred y)
  | QuadTo x1 y1 x y => QuadTo (Qred x1) (Qred y1) (Qred x) (Qred y)
  | HRel dx => HRel (Qred dx)
  | VRel dy => VRel (Qred dy)
  | ClosePath => ClosePath
  end.

Definition canon (c : list segment) : list segment := map canon_segment c.

(** The points a contour passes through: the pen position after each
    command ([Z] returns to the start of the subpath and adds none). *)
Definition point := (Q * Q)%type.

Fixpoint trace_from (cur start : point) (c : list segment) : list point :=
  match c with
  | [] => []
  | MoveTo x y :: c' => (x, y) :: trace_from (x, y) (x, y) c'
  | LineTo x y :: c' => (x, y) :: trace_from (x, y) start c'
  | QuadTo _ _ x y :: c' => (x, y) :: trace_from (x, y) start c'
  | HRel dx :: c' =>
      let p := (fst cur + dx, snd cur) in p :: trace_from p start c'
  | VRel dy :: c' =>
      let p := (fst cur, snd cur + dy) in p :: trace_from p start c'
  | ClosePath :: c' => trace_from start start c'
  end.

Definition vertices (c : list segment) : list point := trace_from (0, 0) (0, 0) c.

Definition closed (c : list segment) : bool :=
  match rev c with
  | ClosePath :: _ => true
  | _ => false
  end.

Definition point_eqb (p q : point) : bool :=
  Qeq_bool (fst p) (fst q) && Qeq_bool (snd p) (snd q).

Fixpoint points_eqb (ps qs : list point) : bool :=
  match ps, qs with
  | [], [] => true
  | p :: ps', q :: qs' => point_eqb p q && points_eqb ps' qs'
  | _, _ => false
  end.

(** The path data draws the axis-aligned rectangle with top-left corner
    [(x, y)], width [w] and height [h]: a closed contour through its four
    corners, clockwise from the top-left one. *)
Definition draws_rect (p : pathdata) (x y w h : Q) : bool :=
  match read_path p with
  | Some c =>
      closed c &&
      points_eqb (vertices c) [(x, y); (x + w, y); (x + w, y + h); (x, y + h)]
  | None => false
  end.

(* ================================================================= *)
(** ** Template documents *)

Record BBox : Type := mkBBox {
  bbox_x : Q;
  bbox_y : Q;
  bbox_width : Q;
  bbox_height : Q
}.

(** A shape element of the rendered template.  Numeric attributes are
    kept as the numbers [parseFloat] reads from them, the [d] attribute
    as its text; [style_fill] and [style_stroke] are the computed style
    (the empty string when the host reports none).  [host_bbox] is what
    the host's [getBBox] reports for an authored path. *)
Record Element : Type := mkElement {
  tagName : string;
  attr_d : option string;
  attrs : list (string * Q);
  style_fill : string;
  style_stroke : string;
  host_bbox : BBox
}.

Fixpoint getAttribute (l : list (string * Q)) (name : string) : option Q :=
  match l with
  | [] => None
  | (k, v) :: l' => if k =? name then Some v else getAttribute l' name
  end.

(** [parseFloat(el.getAttribute(name) || '0')]. *)
Definition num_attr (el : Element) (name : string) : Q :=
  match getAttribute (attrs el) name with
  | Some v => v
  | None => 0
  end.

(** [parseFloat(el.getAttribute(name) || el.getAttribute(other) || '0')]. *)
Definition num_attr_or (el : Element) (name other : string) : Q :=
  match getAttribute (attrs el) name with
  | Some v => v
  | None => num_attr el other
  end.

(** Modelled from the host: [SVGGraphicsElement.getBBox] of the basic
    shapes is their declared geometry; for an authored path it is the
    box the host computes. *)
Definition getBBox (el : Element) : BBox :=
  if tagName el =? "rect" then
    mkBBox (num_attr el "x") (num_attr el "y")
           (num_attr el "width") (num_attr el "height")
  else if tagName el =? "circle" then
    mkBBox (num_attr el "cx" - num_attr el "r") (num_attr el "cy" - num_attr el "r")
           (2 * num_attr el "r") (2 * num_attr el "r")
  else if tagName el =? "ellipse" then
    mkBBox (num_attr el "cx" - num_attr el "rx") (num_attr el "cy" - num_attr el "ry")
           (2 * num_attr el "rx") (2 * num_attr el "ry")
  else host_bbox el.

(* ----------------------------------------------------------------- *)
(** *** Colour classes ([getShapeColorType]) *)

Inductive ColorType : Type := magenta | cyan | red | unknown.

Definition ColorType_eqb (a b : ColorType) : bool :=
  match a, b with
  | magenta, magenta | cyan, cyan | red, red | unknown, unknown => true
  | _, _ => false
  end.

Definition is_digit (c : ascii) : bool :=
  let n := nat_of_ascii c in ((48 <=? n) && (n <=? 57))%nat.

(** [str.match(/\d+/g)]: the maximal runs of digits, left to right
    ([run] is the run being read). *)
Definition flush (run : string) : list string :=
  if run =? "" then [] else [run].

Fixpoint match_digits_from (run s : string) : list string :=
  match s with
  | EmptyString => flush run
  | String c s' =>
      if is_digit c then match_digits_from (run ++ String c "") s'
      else (flush run ++ match_digits_from "" s')%list
  end.

Definition match_digits (s : string) : list string := match_digits_from "" s.

(** [parseInt] on a run of digits. *)
Fixpoint parseInt_from (acc : N) (s : string) : N :=
  match s with
  | EmptyString => acc
  | String c s' => parseInt_from (acc * 10 + (N_of_ascii c - 48))%N s'
  end.

Definition parseInt (s : string) : N := parseInt_from 0%N s.

Record RGB : Type := mkRGB { rgb_r : N; rgb_g : N; rgb_b : N }.

Definition parseRGB (str : string) : option RGB :=
  match match_digits str with
  | r :: g :: b :: _ => Some (mkRGB (parseInt r) (parseInt g) (parseInt b))
  | _ => None
  end.

Definition rgb_is (c : RGB) (r g b : N) : bool :=
  ((rgb_r c =? r) && (rgb_g c =? g) && (rgb_b c =? b))%N.

(** The loop over [[style.fill, style.stroke]]: a candidate that is
    absent, [none], [transparent], unreadable or of no class is skipped. *)
Fixpoint color_loop (candidates : list string) : ColorType :=
  match candidates with
  | [] => unknown
  | c :: rest =>
      if negb (truthy_str c) || (c =? "none") || (c =? "transparent")
      then color_loop rest
      else
        match parseRGB c with
        | None => color_loop rest
        | Some rgb =>
            if rgb_is rgb 255 0 255 || rgb_is rgb 236 0 140 then magenta
            else if rgb_is rgb 0 255 255 || rgb_is rgb 0 174 239 then cyan
            else if rgb_is rgb 255 0 0 || rgb_is rgb 237 28 36 then red
            else color_loop rest
        end
  end.

Definition getShapeColorType (el : Element) : ColorType :=
  color_loop [style_fill el; style_stroke el].

(* ----------------------------------------------------------------- *)
(** *** Shapes to path data ([shapeToPath]) *)

Definition shapeToPath (el : Element) : pathdata :=
  if tagName el =? "path" then
    match attr_d el with
    | Some d => of_string d
    | None => []
    end
  else if tagName el =? "rect" then
    let x := num_attr el "x" in
    let y := num_attr el "y" in
    let width := num_attr el "width" in
    let height := num_attr el "height" in
    let rx := num_attr el "rx" in
    let ry := num_attr_or el "ry" "rx" in
    if Qgt_bool rx 0 || Qgt_bool ry 0 then
      let maxRx := Math_min rx (width / 2) in
      let maxRy := Math_min ry (height / 2) in
      [Txt "M "; interp (x + maxRx); Txt " "; interp y;
       Txt " L "; interp (x + width - maxRx); Txt " "; interp y;
       Txt " Q "; interp (x + width); Txt " "; interp y; Txt " ";
                  interp (x + width); Txt " "; interp (y + maxRy);
       Txt " L "; interp (x + width); Txt " "; interp (y + height - maxRy);
       Txt " Q "; interp (x + width); Txt " "; interp (y + height); Txt " ";
                  interp (x + width - maxRx); Txt " "; interp (y + height);
       Txt " L "; interp (x + maxRx); Txt " "; interp (y + height);
       Txt " Q "; interp x; Txt " "; interp (y + height); Txt " ";
                  interp x; Txt " "; interp (y + height - maxRy);
       Txt " L "; interp x; Txt " "; interp (y + maxRy);
       Txt " Q "; interp x; Txt " "; interp y; Txt " ";
                  interp (x + maxRx); Txt " "; interp y;
       Txt " Z"]
    else
      [Txt "M "; interp x; Txt " "; interp y;
       Txt " L "; interp (x + width); Txt " "; interp y;
       Txt " L "; interp (x + width); Txt " "; interp (y + height);
       Txt " L "; interp x; Txt " "; interp (y + height);
       Txt " Z"]
  else if tagName el =? "circle" then
    let cx := num_attr el "cx" in
    let cy := num_attr el "cy" in
    let r := num_attr el "r" in
    [Txt "M "; interp cx; Txt " "; interp (cy - r);
     Txt " A "; interp r; Txt " "; interp r; Txt " 0 0 1 ";
                interp (cx + r); Txt " "; interp cy;
     Txt " A "; interp r; Txt " "; interp r; Txt " 0 0 1 ";
                interp cx; Txt " "; interp (cy + r);
     Txt " A "; interp r; Txt " "; interp r; Txt " 0 0 1 ";
                interp (cx - r); Txt " "; interp cy;
     Txt " A "; interp r; Txt " "; interp r; Txt " 0 0 1 ";
                interp cx; Txt " "; interp (cy - r);
     Txt " Z"]
  else if tagName el =? "ellipse" then
    let cx := num_attr el "cx" in
    let cy := num_attr el "cy" in
    let rx := num_attr el "rx" in
    let ry := num_attr el "ry" in
    [Txt "M "; interp cx; Txt " "; interp (cy - ry);
     Txt " A "; interp rx; Txt " "; interp ry; Txt " 0 0 1 ";
                interp (cx + rx); Txt " "; interp cy;
     Txt " A "; interp rx; Txt " "; interp ry; Txt " 0 0 1 ";
                interp cx; Txt " "; interp (cy + ry);
     Txt " A "; interp rx; Txt " "; interp ry; Txt " 0 0 1 ";
                interp (cx - rx); Txt " "; interp cy;
     Txt " A "; interp rx; Txt " "; interp ry; Txt " 0 0 1 ";
                interp cx; Txt " "; interp (cy - ry);
     Txt " Z"]
  else [].

(* ----------------------------------------------------------------- *)
(** *** The template builder ([processSingleTemplate]) *)

(** [PhoneModel] of [types.ts]. *)
Record PhoneModel : Type := mkPhoneModel {
  id : string;
  name : string;
  brand : string;
  width : Q;
  height : Q;
  minX : option Q;
  minY : option Q;
  screenRatio : Q;
  svgPath : pathdata;
  cameraPath : pathdata;
  safeZonePath : pathdata
}.

(** The template as rendered in the sandbox: whether an [svg] element
    was found, and the shapes selected by
    [querySelectorAll('path, rect, circle, ellipse')], in document
    order. *)
Record Document : Type := mkDocument {
  svgElement : bool;
  shapeElements : list Element
}.

Record Classified : Type := mkClassified {
  caseElement : option Element;
  cameraElements : list Element;
  safeZoneElements : list Element
}.

Definition no_shapes : Classified := mkClassified None [] [].

(** Body of [shapeElements.forEach]. *)
Definition classify_step (st : Classified) (el : Element) : Classified :=
  match getShapeColorType el with
  | magenta => mkClassified (Some el) (cameraElements st) (safeZoneElements st)
  | cyan => mkClassified (caseElement st) (cameraElements st ++ [el])%list (safeZoneElements st)
  | red => mkClassified (caseElement st) (cameraElements st) (safeZoneElements st ++ [el])%list
  | unknown => st
  end.

Definition classify (shapes : list Element) : Classified :=
  fold_left classify_step shapes no_shapes.

(** Body of the loops that join the converted paths:
    [combined += ` ${path}`] for each shape with a non-empty path. *)
Definition join_step (combined : pathdata) (el : Element) : pathdata :=
  let path := shapeToPath el in
  if path_truthy path then (combined ++ Txt " " :: path)%list else combined.

Definition join_paths (els : list Element) : pathdata :=
  fold_left join_step els [].

(** The synthesized safe zone. *)
Definition generated_safe_zone (bbox : BBox) : pathdata :=
  let inset := bbox_width bbox * 0.05 in
  [Txt "M "; interp (bbox_x bbox + inset); Txt " "; interp (bbox_y bbox + inset);
   Txt " h "; interp (bbox_width bbox - 2 * inset);
   Txt " v "; interp (bbox_height bbox - 2 * inset);
   Txt " h -"; interp (bbox_width bbox - 2 * inset);
   Txt " Z"].

Definition invalid_svg : string := "Invalid SVG".

Definition magenta_missing : string :=
  "Chyba šablóny: Nepodarilo sa nájsť Magentový tvar (#ec008c alebo #ff00ff). Skontrolujte či má tvar správnu farbu výplne alebo obrysu.".

Definition not_convertible : string :=
  "Chyba: Nepodarilo sa konvertovať tvar na cestu. Skontrolujte, či SVG obsahuje platný tvar.".

(** The [onload] handler of [processSingleTemplate]: [file_name] is the
    name of the uploaded file, [fresh_id] the identifier drawn from the
    clock and the random generator, [doc] the rendered content. *)
Definition processSingleTemplate (file_name fresh_id : string) (doc : Document)
  : outcome PhoneModel :=
  if negb (svgElement doc) then Rejected invalid_svg
  else
    let found := classify (shapeElements doc) in
    match caseElement found with
    | None => Rejected magenta_missing
    | Some caseEl =>
        let bbox := getBBox caseEl in
        let casePath := shapeToPath caseEl in
        if negb (path_truthy casePath) then Rejected not_convertible
        else
          let combinedCameraPath := join_paths (cameraElements found) in
          let safeZone :=
            match safeZoneElements found with
            | [] => generated_safe_zone bbox
            | _ :: _ => join_paths (safeZoneElements found)
            end in
          Resolved
            {| id := fresh_id;
               name := replace_first ".svg" "" file_name;
               brand := "Vlastná šablóna";
               width := bbox_width bbox;
               height := bbox_height bbox;
               minX := Some (bbox_x bbox);
               minY := Some (bbox_y bbox);
               screenRatio := bbox_width bbox / bbox_height bbox;
               svgPath := casePath;
               cameraPath := combinedCameraPath;
               safeZonePath := safeZone |}
    end.

(* ================================================================= *)
(** ** Design state *)

(** [TextElement] and [DesignState] of [types.ts]. *)
Record TextElement : Type := mkTextElement {
  text_id : string;
  text : string;
  fontFamily : string;
  text_x : Q;
  text_y : Q;
  text_scale : Q;
  text_rotation : Q;
  fontSize : Q;
  color : string
}.

Record DesignState : Type := mkDesignState {
  scale : Q;
  x : Q;
  y : Q;
  rotation : Q;
  imageSrc : option string;
  imgWidth : option Q;
  imgHeight : option Q;
  textElements : option (list TextElement)
}.

Definition INITIAL_DESIGN : DesignState :=
  {| scale := 1; x := 0; y := 0; rotation := 0;
     imageSrc := None; imgWidth := None; imgHeight := None;
     textElements := Some [] |}.

(** [handleAutoFill]: [design] is the state the handler was rendered
    with; the result is the updater handed to [setDesign] (the identity
    when the handler returns early). *)
Definition handleAutoFill (design : DesignState) (selectedModel : option PhoneModel)
  : DesignState -> DesignState :=
  match selectedModel with
  | Some model =>
      if truthy_opt_str (imageSrc design)
         && truthy_opt_num (imgWidth design)
         && truthy_opt_num (imgHeight design)
      then
        let scaleX := width model / nullish_num (imgWidth design) 0 in
        let scaleY := height model / nullish_num (imgHeight design) 0 in
        let newScale := Math_max scaleX scaleY in
        fun prev =>
          {| scale := newScale; x := 0; y := 0; rotation := 0;
             imageSrc := imageSrc prev;
             imgWidth := imgWidth prev;
             imgHeight := imgHeight prev;
             textElements := textElements prev |}
      else fun prev => prev
  | None => fun prev => prev
  end.

(** Pressing "fit to case" once: the handler runs on the current design
    and its update is applied to it. *)
Definition fit_to_case (model : PhoneModel) (design : DesignState) : DesignState :=
  handleAutoFill design (Some model) design.

(* ================================================================= *)
(** ** The host's mathematics

    [Math.PI], [Math.cos], [Math.sin] (used by the canvas to rotate) and
    [Math.hypot] are not rational; they are taken from the host. *)

Class HostMath : Type := {
  Math_PI : Q;
  Math_cos : Q -> Q;
  Math_sin : Q -> Q;
  Math_hypot : Q -> Q -> Q
}.

(* ================================================================= *)
(** ** The 2D canvas

    The calls of [CanvasRenderingContext2D] that matter here, and their
    effect on the drawing state: the current transformation matrix, the
    clip regions in force, the stack of saved states and the list of
    what has been painted, oldest first. *)

Inductive call : Type :=
| save
| restore
| scale_by (sx sy : Q)
| translate (tx ty : Q)
| rotate (angle : Q)
| clip (p : pathdata)
| fill (p : pathdata)
| drawImage (natural_w natural_h dx dy : Q)
| set_font (f : list piece)
| set_fillStyle (s : string)
| set_textAlign (s : string)
| set_textBaseline (s : string)
| fillText (t : string) (tx ty : Q).

(** The matrix [[a c e; b d f; 0 0 1]]. *)
Record matrix : Type := mkMatrix {
  m_a : Q; m_b : Q; m_c : Q; m_d : Q; m_e : Q; m_f : Q
}.

Definition identity : matrix := mkMatrix 1 0 0 1 0 0.

Definition m_translate (m : matrix) (tx ty : Q) : matrix :=
  mkMatrix (m_a m) (m_b m) (m_c m) (m_d m)
           (m_a m * tx + m_c m * ty + m_e m)
           (m_b m * tx + m_d m * ty + m_f m).

Definition m_scale (m : matrix) (sx sy : Q) : matrix :=
  mkMatrix (m_a m * sx) (m_b m * sx) (m_c m * sy) (m_d m * sy) (m_e m) (m_f m).

Definition m_rotate `{HostMath} (m : matrix) (angle : Q) : matrix :=
  let c := Math_cos angle in
  let s := Math_sin angle in
  mkMatrix (m_a m * c + m_c m * s) (m_b m * c + m_d m * s)
           (m_c m * c - m_a m * s) (m_d m * c - m_b m * s)
           (m_e m) (m_f m).

(** Where the matrix sends a point of user space. *)
Definition m_apply (m : matrix) (p : point) : point :=
  (m_a m * fst p + m_c m * snd p + m_e m,
   m_b m * fst p + m_d m * snd p + m_f m).

(** A clip region: a path and the matrix in force when it was set. *)
Definition region := (pathdata * matrix)%type.

Inductive paint : Type :=
| painted_image (ctm : matrix) (clips : list region) (natural_w natural_h dx dy : Q)
| painted_text (ctm : matrix) (clips : list region) (t : string) (tx ty : Q)
| painted_path (ctm : matrix) (clips : list region) (p : pathdata).

Record canvas_state : Type := mkCanvasState {
  ctm : matrix;
  clips : list region;
  saved : list (matrix * list region);
  paints : list paint
}.

Definition fresh_canvas : canvas_state := mkCanvasState identity [] [] [].

Definition exec `{HostMath} (st : canvas_state) (c : call) : canvas_state :=
  match c with
  | save => mkCanvasState (ctm st) (clips st) ((ctm st, clips st) :: saved st) (paints st)
  | restore =>
      match saved st with
      | [] => st
      | (m, cl) :: rest => mkCanvasState m cl rest (paints st)
      end
  | scale_by sx sy => mkCanvasState (m_scale (ctm st) sx sy) (clips st) (saved st) (paints st)
  | translate tx ty => mkCanvasState (m_translate (ctm st) tx ty) (clips st) (saved st) (paints st)
  | rotate a => mkCanvasState (m_rotate (ctm st) a) (clips st) (saved st) (paints st)
  | clip p => mkCanvasState (ctm st) ((p, ctm st) :: clips st) (saved st) (paints st)
  | fill p =>
      mkCanvasState (ctm st) (clips st) (saved st)
                    (paints st ++ [painted_path (ctm st) (clips st) p])
  | drawImage w h dx dy =>
      mkCanvasState (ctm st) (clips st) (saved st)
                    (paints st ++ [painted_image (ctm st) (clips st) w h dx dy])
  | fillText t tx ty =>
      mkCanvasState (ctm st) (clips st) (saved st)
                    (paints st ++ [painted_text (ctm st) (clips st) t tx ty])
  | set_font _ | set_fillStyle _ | set_textAlign _ | set_textBaseline _ => st
  end.

Definition run `{HostMath} (calls : list call) : canvas_state :=
  fold_left exec calls fresh_canvas.

(* ================================================================= *)
(** ** The print compositor ([generatePrintFile]) *)

(** What the promise resolves with: the data URL of the canvas, kept as
    the canvas it encodes (its size as assigned, the calls issued on its
    context) and the arguments of [toDataURL]. *)
Record PrintFile : Type := mkPrintFile {
  canvas_width : Q;
  canvas_height : Q;
  calls : list call;
  mime_type : string;
  quality : Q
}.

Definition scaleFactor : Q := 2.5.

Section Compositor.
Context `{HostMath}.

(** The image layer: the calls between [ctx.clip(path)] and
    [ctx.restore()].  [img_w] and [img_h] are [img.width] and
    [img.height] of the decoded image. *)
Definition image_layer (model : PhoneModel) (currentDesign : DesignState)
           (img_w img_h : Q) : list call :=
  let offsetX := nullish_num (minX model) 0 in
  let offsetY := nullish_num (minY model) 0 in
  let cx := offsetX + width model / 2 in
  let cy := offsetY + height model / 2 in
  [translate cx cy;
   translate (x currentDesign) (y currentDesign);
   rotate ((rotation currentDesign * Math_PI) / 180);
   scale_by (scale currentDesign) (scale currentDesign);
   drawImage img_w img_h (- img_w / 2) (- img_h / 2)].

(** Body of [currentDesign.textElements.forEach]. *)
Definition text_calls (cx cy : Q) (textEl : TextElement) : list call :=
  let textX := cx + text_x textEl in
  let textY := cy + text_y textEl in
  let size := fontSize textEl * text_scale textEl in
  [save;
   translate textX textY;
   rotate ((text_rotation textEl * Math_PI) / 180);
   set_font [Txt "600 "; interp size; Txt "px "; Txt (fontFamily textEl)];
   set_fillStyle (if truthy_str (color textEl) then color textEl else "#1e293b");
   set_textAlign "center";
   set_textBaseline "middle";
   fillText (text textEl) 0 0;
   restore].

Definition text_layer (model : PhoneModel) (currentDesign : DesignState)
  : list call :=
  let offsetX := nullish_num (minX model) 0 in
  let offsetY := nullish_num (minY model) 0 in
  let cx := offsetX + width model / 2 in
  let cy := offsetY + height model / 2 in
  match textElements currentDesign with
  | Some (t :: ts) =>
      ([save; clip (svgPath model)]
         ++ flat_map (text_calls cx cy) (t :: ts)
         ++ [restore])%list
  | _ => []
  end.

(** The [onload] handler of the image. *)
Definition onload_calls (model : PhoneModel) (currentDesign : DesignState)
           (img_w img_h : Q) : list call :=
  let offsetX := nullish_num (minX model) 0 in
  let offsetY := nullish_num (minY model) 0 in
  ([scale_by scaleFactor scaleFactor;
    translate (- offsetX) (- offsetY);
    save;
    clip (svgPath model)]
     ++ image_layer model currentDesign img_w img_h
     ++ [restore]
     ++ text_layer model currentDesign)%list.

(** [generatePrintFile].  [has_context] tells whether
    [canvas.getContext('2d')] gave a context; [decoded] is the size of
    the image when it loads, [None] when [onerror] fires (the promise is
    then rejected with the error event). *)
Definition generatePrintFile (has_context : bool) (decoded : option (Q * Q))
           (model : PhoneModel) (currentDesign : DesignState)
  : outcome PrintFile :=
  if negb has_context then Rejected "No canvas context"
  else
    match decoded with
    | None => Rejected "error"
    | Some (img_w, img_h) =>
        Resolved
          {| canvas_width := width model * scaleFactor;
             canvas_height := height model * scaleFactor;
             calls := onload_calls model currentDesign img_w img_h;
             mime_type := "image/jpeg";
             quality := 0.8 |}
    end.

End Compositor.

(** Template-native coordinates of a point of the canvas: the frame in
    which the outline is drawn is the canvas frame scaled by
    [scaleFactor] and moved by [(-minX, -minY)]. *)
Definition to_native (model : PhoneModel) (p : point) : point :=
  (fst p / scaleFactor + nullish_num (minX model) 0,
   snd p / scaleFactor + nullish_num (minY model) 0).

(** Canvas position of the centre of a painted image. *)
Definition image_centre (p : paint) : option point :=
  match p with
  | painted_image m _ w h dx dy => Some (m_apply m (dx + w / 2, dy + h / 2))
  | _ => None
  end.

Definition is_image (p : paint) : bool :=
  match p with
  | painted_image _ _ _ _ _ _ => true
  | _ => false
  end.

Definition is_text (p : paint) : bool :=
  match p with
  | painted_text _ _ _ _ _ => true
  | _ => false
  end.

Definition paints_path (q : pathdata) (p : paint) : Prop :=
  exists m cl, p = painted_path m cl q.

Definition clip_paths (p : paint) : list pathdata :=
  match p with
  | painted_image _ cl _ _ _ _ => map fst cl
  | painted_text _ cl _ _ _ => map fst cl
  | painted_path _ cl _ => map fst cl
  end.

(* ================================================================= *)
(** ** The editor's zoom and pan handlers ([PhoneEditor]) *)

Record WheelEvent : Type := mkWheelEvent {
  deltaY : Q;
  ctrlKey : bool;
  metaKey : bool
}.

Record Touch : Type := mkTouch {
  clientX : Q;
  clientY : Q
}.

Record DragStart : Type := mkDragStart {
  drag_x : Q;
  drag_y : Q;
  initialDesignX : Q;
  initialDesignY : Q
}.

(** The design held by the application (the editor's [design] prop, with
    [onDesignChange] bound to [setDesign]) and the editor's own state. *)
Record Editor : Type := mkEditor {
  design : DesignState;
  container_width : Q;
  container_height : Q;
  isDragging : bool;
  dragStartRef : option DragStart;
  startDistance : option Q;
  initialScale : Q
}.

(** [{ ...design, scale: s }] and [{ ...design, x: px, y: py }]. *)
Definition with_scale (d : DesignState) (s : Q) : DesignState :=
  {| scale := s; x := x d; y := y d; rotation := rotation d;
     imageSrc := imageSrc d; imgWidth := imgWidth d; imgHeight := imgHeight d;
     textElements := textElements d |}.

Definition with_offset (d : DesignState) (px py : Q) : DesignState :=
  {| scale := scale d; x := px; y := py; rotation := rotation d;
     imageSrc := imageSrc d; imgWidth := imgWidth d; imgHeight := imgHeight d;
     textElements := textElements d |}.

Definition onDesignChange (ed : Editor) (d : DesignState) : Editor :=
  mkEditor d (container_width ed) (container_height ed) (isDragging ed)
           (dragStartRef ed) (startDistance ed) (initialScale ed).

Section EditorHandlers.
Context `{HostMath}.
Variable model : PhoneModel.

Definition editorScale (ed : Editor) : Q :=
  if Qeq_bool (container_height ed) 0 || Qeq_bool (height model) 0 then 1
  else
    let availableH := container_height ed * 0.85 in
    let availableW := container_width ed * 0.85 in
    let heightRatio := availableH / height model in
    let widthRatio := availableW / width model in
    Math_min heightRatio widthRatio.

Definition handleWheel (e : WheelEvent) (ed : Editor) : Editor :=
  let factor := if ctrlKey e || metaKey e then 0.1 else 0.05 in
  let delta := - Math_sign (deltaY e) in
  let newScale :=
    Math_max 0.1 (Math_min 10 (scale (design ed) + delta * factor)) in
  onDesignChange ed (with_scale (design ed) newScale).

(** [getTouchDistance]: the distance between the first two touches. *)
Definition getTouchDistance (touches : list Touch) : Q :=
  match touches with
  | t0 :: t1 :: _ =>
      let dx := clientX t0 - clientX t1 in
      let dy := clientY t0 - clientY t1 in
      Math_hypot dx dy
  | _ => 0
  end.

Definition handleTouchStart (touches : list Touch) (ed : Editor) : Editor :=
  if negb (truthy_opt_str (imageSrc (design ed))) then ed
  else
    match touches with
    | [_; _] =>
        let dist := getTouchDistance touches in
        mkEditor (design ed) (container_width ed) (container_height ed)
                 false None (Some dist) (scale (design ed))
    | [touch] =>
        mkEditor (design ed) (container_width ed) (container_height ed)
                 true
                 (Some (mkDragStart (clientX touch) (clientY touch)
                                    (x (design ed)) (y (design ed))))
                 (startDistance ed) (initialScale ed)
    | _ => ed
    end.

Definition handleTouchMove (touches : list Touch) (ed : Editor) : Editor :=
  match touches, startDistance ed with
  | [_; _], Some start =>
      let currentDist := getTouchDistance touches in
      let ratio := currentDist / start in
      let newScale := Math_max 0.1 (Math_min 10 (initialScale ed * ratio)) in
      onDesignChange ed (with_scale (design ed) newScale)
  | _, _ =>
      match isDragging ed, touches, dragStartRef ed with
      | true, [touch], Some ds =>
          let dx := clientX touch - drag_x ds in
          let dy := clientY touch - drag_y ds in
          let scaledDx := dx / editorScale ed in
          let scaledDy := dy / editorScale ed in
          onDesignChange ed
            (with_offset (design ed)
                         (initialDesignX ds + scaledDx)
                         (initialDesignY ds + scaledDy))
      | _, _, _ => ed
      end
  end.

Definition handleTouchEnd (ed : Editor) : Editor :=
  mkEditor (design ed) (container_width ed) (container_height ed)
           false None None (initialScale ed).

(** The wheel and touch events the editor receives. *)
Inductive event : Type :=
| wheel (e : WheelEvent)
| touchstart (touches : list Touch)
| touchmove (touches : list Touch)
| touchend.

Definition dispatch (ed : Editor) (ev : event) : Editor :=
  match ev with
  | wheel e => handleWheel e ed
  | touchstart ts => handleTouchStart ts ed
  | touchmove ts => handleTouchMove ts ed
  | touchend => handleTouchEnd ed
  end.

Definition dispatch_all (evs : list event) (ed : Editor) : Editor :=
  fold_left dispatch evs ed.


End EditorHandlers.


(* ================================================================= *)
(** ** A rational stand-in for the host

    To run the model on examples: the square root is exact on the
    squares of rationals, cosine and sine are exact at angle 0. *)

Definition approx_sqrt (q : Q) : Q :=
  Z.sqrt (Qnum q * Zpos (Qden q)) # Qden q.

Definition sample_host : HostMath := {|
  Math_PI := 355 # 113;
  Math_cos := fun a => 1 - a * a / 2 + a * a * a * a / 24;
  Math_sin := fun a => a - a * a * a / 6 + a * a * a * a * a / 120;
  Math_hypot := fun dx dy => approx_sqrt (dx * dx + dy * dy)
|}.

(* ================================================================= *)
(** ** The specification's vocabulary *)

(** The accepted colours of each class: the canonical value and its
    alternate. *)
Definition class_colours (t : ColorType) : list (N * N * N) :=
  match t with
  | magenta => [(255, 0, 255); (236, 0, 140)]
  | cyan => [(0, 255, 255); (0, 174, 239)]
  | red => [(255, 0, 0); (237, 28, 36)]
  | unknown => []
  end%N.

(** A computed colour belongs to class [t]: it is set, and its first
    three numbers are one of the class's colours. *)
Definition matches_class (c : string) (t : ColorType) : Prop :=
  c <> "" /\ c <> "none" /\ c <> "transparent" /\
  exists rgb, parseRGB c = Some rgb /\
              In (rgb_r rgb, rgb_g rgb, rgb_b rgb) (class_colours t).

Definition matches_no_class (c : string) : Prop :=
  forall t, ~ matches_class c t.

Definition is_magenta (el : Element) : bool :=
  ColorType_eqb (getShapeColorType el) magenta.

(** The rounded rectangle of the specification: eight segments, a
    straight edge then a corner, around the box [(x, y, w, h)], with
    horizontal corner radius [rX] and vertical corner radius [rY]. *)
Definition rounded_contour (x y w h rX rY : Q) : list segment :=
  [MoveTo (x + rX) y;
   LineTo (x + w - rX) y;         QuadTo (x + w) y (x + w) (y + rY);
   LineTo (x + w) (y + h - rY);   QuadTo (x + w) (y + h) (x + w - rX) (y + h);
   LineTo (x + rX) (y + h);       QuadTo x (y + h) x (y + h - rY);
   LineTo x (y + rY);             QuadTo x y (x + rX) y;
   ClosePath].

Inductive kind : Type := move | edge | corner | close.

Definition kind_of (s : segment) : kind :=
  match s with
  | MoveTo _ _ => move
  | LineTo _ _ | HRel _ | VRel _ => edge
  | QuadTo _ _ _ _ => corner
  | ClosePath => close
  end.

(** [needle] occurs in [s]. *)
Fixpoint contains (needle s : string) : bool :=
  String.prefix needle s ||
  match s with
  | EmptyString => false
  | String _ s' => contains needle s'
  end.

(** [{ ...model, cameraPath: c }]. *)
Definition with_cameraPath (m : PhoneModel) (c : pathdata) : PhoneModel :=
  {| id := id m; name := name m; brand := brand m;
     width := width m; height := height m; minX := minX m; minY := minY m;
     screenRatio := screenRatio m; svgPath := svgPath m;
     cameraPath := c; safeZonePath := safeZonePath m |}.

(** The shapes of one class, in document order, and the last shape of a
    list (or [d] when the list is empty). *)
Definition keep (t : ColorType) (l : list Element) : list Element :=
  filter (fun e => ColorType_eqb (getShapeColorType e) t) l.

Definition last_or (d : option Element) (l : list Element) : option Element :=
  fold_left (fun _ e => Some e) l d.

(** What the compositor is expected to paint. *)
Section Composite.
Context `{HostMath}.

(** The frame in which the outline is given: the canvas frame after
    the first two calls. *)
Definition native_frame (model : PhoneModel) : matrix :=
  m_translate (m_scale identity scaleFactor scaleFactor)
              (- nullish_num (minX model) 0) (- nullish_num (minY model) 0).

Definition centre_x (model : PhoneModel) : Q :=
  nullish_num (minX model) 0 + width model / 2.

Definition centre_y (model : PhoneModel) : Q :=
  nullish_num (minY model) 0 + height model / 2.

(** The matrix under which the image is drawn. *)
Definition image_matrix (model : PhoneModel) (d : DesignState) : matrix :=
  m_scale
    (m_rotate
       (m_translate
          (m_translate (native_frame model) (centre_x model) (centre_y model))
          (x d) (y d))
       ((rotation d * Math_PI) / 180))
    (scale d) (scale d).

Definition outline_clip (model : PhoneModel) : list region :=
  [(svgPath model, native_frame model)].

Definition text_paint (model : PhoneModel) (t : TextElement) : paint :=
  painted_text
    (m_rotate
       (m_translate (native_frame model)
                    (centre_x model + text_x t) (centre_y model + text_y t))
       ((text_rotation t * Math_PI) / 180))
    (outline_clip model) (text t) 0 0.

Definition texts_of (d : DesignState) : list TextElement :=
  match textElements d with
  | Some ts => ts
  | None => []
  end.

(** Everything the compositor paints, bottom to top. *)
Definition composite (model : PhoneModel) (d : DesignState) (w h : Q)
  : list paint :=
  painted_image (image_matrix model d) (outline_clip model) w h (- w / 2) (- h / 2)
  :: map (text_paint model) (texts_of d).

End Composite.

(* ================================================================= *)
(** ** Sample data *)

Definition no_box : BBox := mkBBox 0 0 0 0.

Definition sample_rect (fill stroke : string) : Element :=
  mkElement "rect" None
            [("x", 0); ("y", 0); ("width", 100); ("height", 200)]
            fill stroke no_box.

Definition sample_circle (fill stroke : string) : Element :=
  mkElement "circle" None [("cx", 80); ("cy", 40); ("r", 10)]
            fill stroke no_box.

Definition sample_round_rect (fill stroke : string) : Element :=
  mkElement "rect" None
            [("x", 0); ("y", 0); ("width", 100); ("height", 200); ("rx", 80)]
            fill stroke no_box.

Definition sample_model : PhoneModel :=
  {| id := "custom-1"; name := "case"; brand := "Vlastná šablóna";
     width := 100; height := 200; minX := Some 0; minY := Some 0;
     screenRatio := 100 / 200;
     svgPath := shapeToPath (sample_rect "rgb(255, 0, 255)" "none");
     cameraPath := join_paths [sample_circle "rgb(0, 255, 255)" "none"];
     safeZonePath := generated_safe_zone (mkBBox 0 0 100 200) |}.

Definition sample_text : TextElement :=
  {| text_id := "text-1"; text := "Ahoj"; fontFamily := "Roboto";
     text_x := 0; text_y := 10; text_scale := 1; text_rotation := 0;
     fontSize := 24; color := "#1e293b" |}.

Definition sample_design : DesignState :=
  {| scale := 1; x := 0; y := 0; rotation := 0;
     imageSrc := Some "data:image/png"; imgWidth := Some 300; imgHeight := Some 500;
     textElements := Some [sample_text] |}.

Definition sample_moved_design : DesignState :=
  {| scale := 3; x := 12; y := -7; rotation := 45;
     imageSrc := Some "data:image/png"; imgWidth := Some 300; imgHeight := Some 500;
     textElements := Some [sample_text] |}.

Definition sample_editor : Editor :=
  {| design := mkDesignState (1 # 50) 0 0 0 (Some "data:image/png")
                             (Some 300) (Some 500) (Some []);
     container_width := 500; container_height := 800;
     isDragging := false; dragStartRef := None;
     startDistance := None; initialScale := 1 |}.

(* ================================================================= *)
(** ** The editor's view ([PhoneEditor], render)

    The editor shows the design as SVG: the image and each text carry a
    [transform] attribute, a list of SVG transforms applied left to
    right. *)

(** [a || b] on an optional number. *)
Definition or_num (a : option Q) (b : Q) : Q :=
  match a with
  | Some v => if truthy_num v then v else b
  | None => b
  end.

Inductive svg_op : Type :=
| svg_translate (tx ty : Q)
| svg_rotate (deg : Q)
| svg_scale (s : Q).

Section SvgTransforms.
Context `{HostMath}.

(** Modelled from the host: SVG's [rotate] takes degrees; it is the
    rotation the canvas performs for the same angle in radians. *)
Definition svg_apply (m : matrix) (o : svg_op) : matrix :=
  match o with
  | svg_translate tx ty => m_translate m tx ty
  | svg_rotate deg => m_rotate m ((deg * Math_PI) / 180)
  | svg_scale s => m_scale m s s
  end.

Definition svg_matrix_from (m : matrix) (ops : list svg_op) : matrix :=
  fold_left svg_apply ops m.

Definition svg_matrix (ops : list svg_op) : matrix :=
  svg_matrix_from identity ops.

(** What one transform does to a point, and a list of them (the last
    one acts first). *)
Definition svg_act (o : svg_op) (p : point) : point :=
  match o with
  | svg_translate tx ty => (fst p + tx, snd p + ty)
  | svg_rotate deg =>
      let c := Math_cos ((deg * Math_PI) / 180) in
      let s := Math_sin ((deg * Math_PI) / 180) in
      (c * fst p - s * snd p, s * fst p + c * snd p)
  | svg_scale s => (s * fst p, s * snd p)
  end.

Definition svg_act_all (ops : list svg_op) (p : point) : point :=
  fold_right svg_act p ops.

End SvgTransforms.

(** [centerX], [centerY], [imgW] and [imgH] of the render. *)
Definition centerX (model : PhoneModel) : Q :=
  or_num (minX model) 0 + width model / 2.

Definition centerY (model : PhoneModel) : Q :=
  or_num (minY model) 0 + height model / 2.

Definition imgW (design : DesignState) : Q := or_num (imgWidth design) 300.
Definition imgH (design : DesignState) : Q := or_num (imgHeight design) 500.

(** The [<image>] element: placed at [(0, 0)] with size [imgW x imgH]
    under this transform. *)
Definition editor_image_transform (model : PhoneModel) (design : DesignState)
  : list svg_op :=
  [svg_translate (centerX model) (centerY model);
   svg_translate (x design) (y design);
   svg_rotate (rotation design);
   svg_scale (scale design);
   svg_translate (- imgW design / 2) (- imgH design / 2)].

(** The [<g>] and [<text>] of one text element. *)
Record editor_text : Type := mkEditorText {
  et_transform : list svg_op;
  et_fontSize : Q;
  et_fontFamily : string;
  et_fontWeight : Q;
  et_fill : string;
  et_textAnchor : string;
  et_dominantBaseline : string;
  et_content : string
}.

Definition editor_text_of (model : PhoneModel) (textEl : TextElement) : editor_text :=
  let textX := centerX model + text_x textEl in
  let textY := centerY model + text_y textEl in
  let size := fontSize textEl * text_scale textEl in
  {| et_transform := [svg_translate textX textY; svg_rotate (text_rotation textEl)];
     et_fontSize := size;
     et_fontFamily := fontFamily textEl;
     et_fontWeight := 600;
     et_fill := if truthy_str (color textEl) then color textEl else "#1e293b";
     et_textAnchor := "middle";
     et_dominantBaseline := "middle";
     et_content := text textEl |}.

(** Points with equal coordinates. *)
Definition same_point (p q : point) : Prop :=
  fst p == fst q /\ snd p == snd q.

(* ================================================================= *)
(** ** Design actions of the application ([App]) *)

(** [handleCenter]: the updater handed to [setDesign]. *)
Definition handleCenter (prev : DesignState) : DesignState :=
  with_offset prev 0 0.

(* ================================================================= *)
(** ** The editor's mouse and text handlers ([PhoneEditor]) *)

(** A mouse event: the pointer position, and whether the target is a
    text element or lies inside one (the [data-text-element] checks of
    [handleMouseDown]). *)
Record MouseEvent : Type := mkMouseEvent {
  mouse_clientX : Q;
  mouse_clientY : Q;
  target_in_text : bool
}.

Record TextDragStart : Type := mkTextDragStart {
  tdrag_x : Q;
  tdrag_y : Q;
  initialX : Q;
  initialY : Q
}.

(** The editor with its text state: the zoom and pan state, the text
    being dragged, the start of that drag and the selected text. *)
Record EditorUI : Type := mkEditorUI {
  core : Editor;
  draggedTextId : option string;
  textDragStartRef : option TextDragStart;
  selectedTextId : option string
}.

Definition set_core (ui : EditorUI) (ed : Editor) : EditorUI :=
  mkEditorUI ed (draggedTextId ui) (textDragStartRef ui) (selectedTextId ui).

(** [setIsDragging(b); dragStartRef.current = r]. *)
Definition set_drag (ed : Editor) (b : bool) (r : option DragStart) : Editor :=
  mkEditor (design ed) (container_width ed) (container_height ed) b r
           (startDistance ed) (initialScale ed).

(** [{ ...design, textElements: ts }]. *)
Definition with_texts (d : DesignState) (ts : option (list TextElement)) : DesignState :=
  {| scale := scale d; x := x d; y := y d; rotation := rotation d;
     imageSrc := imageSrc d; imgWidth := imgWidth d; imgHeight := imgHeight d;
     textElements := ts |}.

(** [{ ...t, x: px, y: py }], [{ ...t, scale: s }], [{ ...t, rotation: r }]. *)
Definition text_with_offset (t : TextElement) (px py : Q) : TextElement :=
  {| text_id := text_id t; text := text t; fontFamily := fontFamily t;
     text_x := px; text_y := py; text_scale := text_scale t;
     text_rotation := text_rotation t; fontSize := fontSize t; color := color t |}.

Definition text_with_scale (t : TextElement) (s : Q) : TextElement :=
  {| text_id := text_id t; text := text t; fontFamily := fontFamily t;
     text_x := text_x t; text_y := text_y t; text_scale := s;
     text_rotation := text_rotation t; fontSize := fontSize t; color := color t |}.

Definition text_with_rotation (t : TextElement) (r : Q) : TextElement :=
  {| text_id := text_id t; text := text t; fontFamily := fontFamily t;
     text_x := text_x t; text_y := text_y t; text_scale := text_scale t;
     text_rotation := r; fontSize := fontSize t; color := color t |}.

(** [design.textElements?.find(t => t.id === textId)]. *)
Definition find_text (d : DesignState) (textId : string) : option TextElement :=
  match textElements d with
  | Some ts => find (fun t => text_id t =? textId) ts
  | None => None
  end.

(** [design.textElements?.map(t => t.id === textId ? f(t) : t)]. *)
Definition map_text (d : DesignState) (textId : string)
           (f : TextElement -> TextElement) : option (list TextElement) :=
  option_map (map (fun t => if text_id t =? textId then f t else t))
             (textElements d).

Section EditorTextHandlers.
Variable model : PhoneModel.

(** [handleMouseDown]; the boolean tells whether [onUploadClick] is
    called. *)
Definition handleMouseDown (e : MouseEvent) (ui : EditorUI) : EditorUI * bool :=
  if truthy_opt_str (draggedTextId ui) || truthy_opt_str (selectedTextId ui)
  then (ui, false)
  else if target_in_text e then (ui, false)
  else if negb (truthy_opt_str (imageSrc (design (core ui)))) then (ui, true)
  else
    (set_core ui
       (set_drag (core ui) true
          (Some (mkDragStart (mouse_clientX e) (mouse_clientY e)
                             (x (design (core ui))) (y (design (core ui)))))),
     false).

Definition handleWindowMouseMove (e : MouseEvent) (ui : EditorUI) : EditorUI :=
  if truthy_opt_str (draggedTextId ui)
  then set_core ui (set_drag (core ui) false None)
  else
    match isDragging (core ui), dragStartRef (core ui) with
    | true, Some ds =>
        let dx := mouse_clientX e - drag_x ds in
        let dy := mouse_clientY e - drag_y ds in
        let scaledDx := dx / editorScale model (core ui) in
        let scaledDy := dy / editorScale model (core ui) in
        set_core ui
          (onDesignChange (core ui)
             (with_offset (design (core ui))
                          (initialDesignX ds + scaledDx)
                          (initialDesignY ds + scaledDy)))
    | _, _ => ui
    end.

Definition handleWindowMouseUp (ui : EditorUI) : EditorUI :=
  set_core ui (set_drag (core ui) false None).

Definition handleTextMouseDown (e : MouseEvent) (textId : string) (ui : EditorUI)
  : EditorUI :=
  let ed := set_drag (core ui) false None in
  match find_text (design ed) textId with
  | None => set_core ui ed
  | Some textEl =>
      mkEditorUI ed (Some textId)
                 (Some (mkTextDragStart (mouse_clientX e) (mouse_clientY e)
                                        (text_x textEl) (text_y textEl)))
                 (Some textId)
  end.

Definition handleTextMouseMove (e : MouseEvent) (ui : EditorUI) : EditorUI :=
  match draggedTextId ui, textDragStartRef ui with
  | Some dragged, Some ts =>
      if negb (truthy_str dragged) then ui
      else
        let dx := mouse_clientX e - tdrag_x ts in
        let dy := mouse_clientY e - tdrag_y ts in
        let scaledDx := dx / editorScale model (core ui) in
        let scaledDy := dy / editorScale model (core ui) in
        let updatedTextElements :=
          map_text (design (core ui)) dragged
                   (fun textEl => text_with_offset textEl
                                    (initialX ts + scaledDx)
                                    (initialY ts + scaledDy)) in
        set_core ui
          (onDesignChange (core ui)
             (with_texts (design (core ui)) updatedTextElements))
  | _, _ => ui
  end.

Definition handleTextMouseUp (ui : EditorUI) : EditorUI :=
  mkEditorUI (core ui) None None (selectedTextId ui).

(** The window listeners are attached by effects: the image ones while
    [isDragging && !draggedTextId], the text ones while [draggedTextId]. *)
Inductive window_event : Type :=
| mousemove (e : MouseEvent)
| mouseup.

Definition image_listeners (ui : EditorUI) : bool :=
  isDragging (core ui) && negb (truthy_opt_str (draggedTextId ui)).

Definition text_listeners (ui : EditorUI) : bool :=
  truthy_opt_str (draggedTextId ui).

(** One window event: the listeners attached at that time run, the
    image ones first (their effect is declared first). *)
Definition window_dispatch (ui : EditorUI) (ev : window_event) : EditorUI :=
  let image_on := image_listeners ui in
  let text_on := text_listeners ui in
  let ui1 :=
    if image_on then
      match ev with
      | mousemove e => handleWindowMouseMove e ui
      | mouseup => handleWindowMouseUp ui
      end
    else ui in
  if text_on then
    match ev with
    | mousemove e => handleTextMouseMove e ui1
    | mouseup => handleTextMouseUp ui1
    end
  else ui1.

End EditorTextHandlers.

(** [handleTextWheel]. *)
Definition handleTextWheel (e : WheelEvent) (textId : string) (ed : Editor) : Editor :=
  match find_text (design ed) textId with
  | None => ed
  | Some textEl =>
      let factor := if ctrlKey e || metaKey e then 0.05 else 0.1 in
      let delta := - Math_sign (deltaY e) in
      let newScale :=
        Math_max 0.1 (Math_min 5 (text_scale textEl + delta * factor)) in
      onDesignChange ed
        (with_texts (design ed)
           (map_text (design ed) textId (fun t => text_with_scale t newScale)))
  end.

(* ----------------------------------------------------------------- *)
(** *** The rotation handle of a selected text *)

(** JavaScript's [%] on numbers: the remainder has the sign of the
    dividend. *)
Definition Qtruncate (a : Q) : Z :=
  if Qle_bool 0 a then Qfloor a else Qceiling a.

Definition js_rem (a b : Q) : Q := a - b * inject_Z (Qtruncate (a / b)).

(** [while (a > 180) a -= 360] and [while (a < -180) a += 360], run for
    at most [fuel] turns. *)
Fixpoint while_above_180 (fuel : nat) (a : Q) : Q :=
  match fuel with
  | O => a
  | S k => if Qgt_bool a 180 then while_above_180 k (a - 360) else a
  end.

Fixpoint while_below_minus_180 (fuel : nat) (a : Q) : Q :=
  match fuel with
  | O => a
  | S k => if Qgt_bool (-180) a then while_below_minus_180 k (a + 360) else a
  end.

(** Turns that are enough for the two loops to end. *)
Definition turns_above (a : Q) : nat := Z.to_nat (Qceiling ((a - 180) / 360)).
Definition turns_below (a : Q) : nat := Z.to_nat (Qceiling ((- 180 - a) / 360)).

Definition normalize_angle (a : Q) : Q :=
  let a1 := while_above_180 (turns_above a) a in
  while_below_minus_180 (turns_below a1) a1.

(** What the mouse-down on the handle keeps for the moves that follow:
    the design of that render, the text, its rotation and the angle of the
    pointer at the press, seen from the text's centre on screen. *)
Record RotateDrag : Type := mkRotateDrag {
  rd_design : DesignState;
  rd_textId : string;
  startRotation : Q;
  rd_centerScreenX : Q;
  rd_centerScreenY : Q;
  initialAngle : Q
}.

Section RotationHandle.
Context `{HostMath}.

(** [Math.atan2], from the host. *)
Variable Math_atan2 : Q -> Q -> Q.

Definition getAngle (centerScreenX centerScreenY mouseX mouseY : Q) : Q :=
  Math_atan2 (mouseY - centerScreenY) (mouseX - centerScreenX) * (180 / Math_PI).

(** The mouse-down on the handle of [textEl]; [(centerScreenX,
    centerScreenY)] is the screen position of the text's centre, which
    the host computes. *)
Definition rotate_down (design : DesignState) (textEl : TextElement)
           (centerScreenX centerScreenY : Q) (e : MouseEvent) : RotateDrag :=
  mkRotateDrag design (text_id textEl) (text_rotation textEl)
               centerScreenX centerScreenY
               (getAngle centerScreenX centerScreenY (mouse_clientX e) (mouse_clientY e)).

(** [handleRotateMove]: the design handed to [onDesignChange]. *)
Definition handleRotateMove (rd : RotateDrag) (moveEvent : MouseEvent) : DesignState :=
  let currentAngle :=
    getAngle (rd_centerScreenX rd) (rd_centerScreenY rd)
             (mouse_clientX moveEvent) (mouse_clientY moveEvent) in
  let angleDiff := normalize_angle (currentAngle - initialAngle rd) in
  let newRotation := js_rem (startRotation rd + angleDiff + 360) 360 in
  with_texts (rd_design rd)
             (map_text (rd_design rd) (rd_textId rd)
                       (fun t => text_with_rotation t newRotation)).

End RotationHandle.

(** Outcome of an update of the texts with identifier [textId]: every
    text keeps its identifier, the others are unchanged, those with the
    identifier are related by [changed]. *)
Definition text_updated (textId : string) (changed : TextElement -> TextElement -> Prop)
           (t t' : TextElement) : Prop :=
  text_id t' = text_id t /\
  (text_id t <> textId -> t' = t) /\
  (text_id t = textId -> changed t t').

(* ================================================================= *)
(** ** Texts, uploads, templates and orders ([App]) *)

Inductive ViewMode : Type := EDITOR | PREVIEW | SUCCESS | ORDERS | TEMPLATES.

(** [OrderSubmission] of [types.ts]; the print file is kept as what the
    compositor resolved with. *)
Record OrderSubmission : Type := mkOrderSubmission {
  order_id : string;
  modelId : string;
  modelName : string;
  order_design : DesignState;
  timestamp : Q;
  printFileUrl : PrintFile
}.

(** [prev.textElements || []]. *)
Definition texts_or_empty (d : DesignState) : list TextElement :=
  match textElements d with
  | Some ts => ts
  | None => []
  end.

(** The text controls of the application: the input field, the font and
    colour for new texts and the selected text. *)
Record TextControls : Type := mkTextControls {
  textInput : string;
  selectedFont : string;
  textColor : string;
  app_selectedTextId : option string
}.

Section TextActions.

(** [String.prototype.trim], from the host. *)
Variable trim : string -> string.

(** [handleAddText]; [text_stamp] is the identifier [`text-${Date.now()}`]. *)
Definition handleAddText (text_stamp : string) (selectedModel : option PhoneModel)
           (tc : TextControls) (prev : DesignState) : DesignState * TextControls :=
  if negb (truthy_str (trim (textInput tc)))
  then (prev, tc)
  else
    match selectedModel with
    | None => (prev, tc)
    | Some _ =>
        let newTextElement :=
          {| text_id := text_stamp;
             text := trim (textInput tc);
             fontFamily := selectedFont tc;
             text_x := 0; text_y := 0; text_scale := 1; text_rotation := 0;
             fontSize := 24;
             color := textColor tc |} in
        (with_texts prev (Some (texts_or_empty prev ++ [newTextElement])%list),
         mkTextControls "" (selectedFont tc) (textColor tc) (Some text_stamp))
    end.

End TextActions.

(** The delete button of a text in the list. *)
Definition delete_text (textId : string) (prev : DesignState) : DesignState :=
  with_texts prev
    (Some (match textElements prev with
           | Some ts => filter (fun t => negb (text_id t =? textId)) ts
           | None => []
           end)).

(** [{ ...t, color: c }] and [{ ...t, fontFamily: f }]. *)
Definition text_with_color (t : TextElement) (c : string) : TextElement :=
  {| text_id := text_id t; text := text t; fontFamily := fontFamily t;
     text_x := text_x t; text_y := text_y t; text_scale := text_scale t;
     text_rotation := text_rotation t; fontSize := fontSize t; color := c |}.

Definition text_with_font (t : TextElement) (f : string) : TextElement :=
  {| text_id := text_id t; text := text t; fontFamily := f;
     text_x := text_x t; text_y := text_y t; text_scale := text_scale t;
     text_rotation := text_rotation t; fontSize := fontSize t; color := color t |}.

(** [selectedTextId] when it is set (not [null], not empty). *)
Definition selected_id (tc : TextControls) : option string :=
  match app_selectedTextId tc with
  | Some s => if truthy_str s then Some s else None
  | None => None
  end.

Definition with_textColor (tc : TextControls) (c : string) : TextControls :=
  mkTextControls (textInput tc) (selectedFont tc) c (app_selectedTextId tc).

(** [onColorChange] of the colour bar (the hex input does the same). *)
Definition change_color (newColor : string) (tc : TextControls) (design : DesignState)
  : DesignState * TextControls :=
  match selected_id tc, textElements design with
  | Some sel, Some ts =>
      (with_texts design
         (Some (map (fun t => if text_id t =? sel
                              then text_with_color t newColor else t) ts)),
       tc)
  | _, Some (t :: ts) =>
      (with_texts design (Some (map (fun t => text_with_color t newColor) (t :: ts))),
       with_textColor tc newColor)
  | _, _ => (design, with_textColor tc newColor)
  end.

(* ----------------------------------------------------------------- *)
(** *** Image upload ([handleFileUpload], image files) *)

(** [a < b] on numbers. *)
Definition Qlt_bool (a b : Q) : bool := Qgt_bool b a.

(** The downscaling of a very large image: the size the image is
    redrawn at. *)
Definition optimized_size (img_w img_h : Q) : Q * Q :=
  if Qgt_bool img_w 2000 || Qgt_bool img_h 2000 then
    let maxDim := 1500 in
    if Qgt_bool img_w img_h then
      if Qgt_bool img_w maxDim
      then (maxDim, img_h * (maxDim / img_w))
      else (img_w, img_h)
    else
      if Qgt_bool img_h maxDim
      then (img_w * (maxDim / img_h), maxDim)
      else (img_w, img_h)
  else (img_w, img_h).

Definition resolution_too_low : string :=
  "Rozlíšenie obrázka je príliš nízke. Prosím, nahrajte obrázok s minimálnymi rozmermi 300x500px pre najlepšiu kvalitu tlače.".

(** The [onload] handler of the uploaded image: [result] is the data URL
    of the file, [redrawn] the data URL of the downscaled canvas (used
    when the image is downscaled), [img_w x img_h] the size of the image.
    The result is the new design and the alert shown, if any. *)
Definition image_uploaded (selectedModel : PhoneModel) (result redrawn : string)
           (img_w img_h : Q) (prev : DesignState) : DesignState * option string :=
  if Qlt_bool img_w 300 || Qlt_bool img_h 500
  then (prev, Some resolution_too_low)
  else
    let large := Qgt_bool img_w 2000 || Qgt_bool img_h 2000 in
    let finalSrc := if large then redrawn else result in
    let finalWidth := fst (optimized_size img_w img_h) in
    let finalHeight := snd (optimized_size img_w img_h) in
    let scaleX := width selectedModel / finalWidth in
    let scaleY := height selectedModel / finalHeight in
    let initialScale := Math_max scaleX scaleY in
    ({| scale := initialScale;
        x := x INITIAL_DESIGN; y := y INITIAL_DESIGN;
        rotation := rotation INITIAL_DESIGN;
        imageSrc := Some finalSrc;
        imgWidth := Some finalWidth;
        imgHeight := Some finalHeight;
        textElements := textElements INITIAL_DESIGN |},
     None).

(* ----------------------------------------------------------------- *)
(** *** Templates ([handleDeleteModel], [handleTemplateUpload]) *)

Record Templates : Type := mkTemplates {
  availableModels : list PhoneModel;
  selectedModel : option PhoneModel
}.

(** [updated[0] || null]. *)
Definition first_model (l : list PhoneModel) : option PhoneModel := hd_error l.

(** [handleDeleteModel]; [confirmed] is the answer to [window.confirm]. *)
Definition handleDeleteModel (confirmed : bool) (st : Templates) : Templates :=
  match selectedModel st with
  | None => st
  | Some sel =>
      if (List.length (availableModels st) <=? 1)%nat then st
      else if confirmed then
        let updated :=
          filter (fun m => negb (id m =? id sel)) (availableModels st) in
        mkTemplates updated (first_model updated)
      else st
  end.

(** The effect that keeps the selection valid when the models change. *)
Definition ensure_selection (st : Templates) : Templates :=
  match selectedModel st with
  | Some sel =>
      match find (fun m => id m =? id sel) (availableModels st) with
      | Some _ => st
      | None => mkTemplates (availableModels st) (first_model (availableModels st))
      end
  | None =>
      match availableModels st with
      | m :: _ => mkTemplates (availableModels st) (Some m)
      | [] => st
      end
  end.

(** An uploaded template file: its name, the identifier drawn for its
    model, and its rendered content ([None] when the file cannot be
    read). *)
Record TemplateFile : Type := mkTemplateFile {
  tf_name : string;
  tf_fresh_id : string;
  tf_content : option Document
}.

(** [processSingleTemplate] on a file, with the reader's error path. *)
Definition process_file (file : TemplateFile) : outcome PhoneModel :=
  match tf_content file with
  | Some doc => processSingleTemplate (tf_name file) (tf_fresh_id file) doc
  | None => Rejected ("Nepodarilo sa načítať súbor: " ++ tf_name file)
  end.

Record UploadResults : Type := mkUploadResults {
  success : list PhoneModel;
  errors : list (string * string)
}.

(** Body of the loop over the files: [error.message || "..."]. *)
Definition upload_step (results : UploadResults) (file : TemplateFile) : UploadResults :=
  match process_file file with
  | Resolved newModel =>
      mkUploadResults (success results ++ [newModel])%list (errors results)
  | Rejected msg =>
      mkUploadResults (success results)
        (errors results ++
           [(tf_name file,
             if truthy_str msg then msg else "Chyba pri spracovaní SVG súboru.")])%list
  end.

Definition upload_results (files : list TemplateFile) : UploadResults :=
  fold_left upload_step files (mkUploadResults [] []).

(** [handleTemplateUpload]: the templates after the upload. *)
Definition handleTemplateUpload (isAdmin : bool) (files : list TemplateFile)
           (st : Templates) : Templates :=
  if negb isAdmin then st
  else
    match files with
    | [] => st
    | _ :: _ =>
        let results := upload_results files in
        match success results with
        | [] => st
        | first :: _ =>
            mkTemplates (availableModels st ++ success results)%list (Some first)
        end
    end.

(* ----------------------------------------------------------------- *)
(** *** Orders ([handleSubmitOrder], [handleDeleteOrder]) *)

(** [{ ...design, imageSrc: null }]. *)
Definition sanitized (d : DesignState) : DesignState :=
  {| scale := scale d; x := x d; y := y d; rotation := rotation d;
     imageSrc := None; imgWidth := imgWidth d; imgHeight := imgHeight d;
     textElements := textElements d |}.

Record Shop : Type := mkShop {
  orders : list OrderSubmission;
  viewMode : ViewMode
}.

Section Orders.
Context `{HostMath}.

(** [handleSubmitOrder]: [order_stamp] is [`ORD-${Date.now()}`], [now] the
    time stamp, [has_context] and [decoded] what the host gives the
    compositor.  The result is the orders and view afterwards, and the
    alert shown, if any. *)
Definition handleSubmitOrder (order_stamp : string) (now : Q)
           (has_context : bool) (decoded : option (Q * Q))
           (design : DesignState) (selectedModel : option PhoneModel) (shop : Shop)
  : Shop * option string :=
  if negb (truthy_opt_str (imageSrc design)) then (shop, None)
  else
    match selectedModel with
    | None => (shop, None)
    | Some model =>
        match generatePrintFile has_context decoded model design with
        | Resolved printFile =>
            let order :=
              {| order_id := order_stamp;
                 modelId := id model;
                 modelName := name model;
                 order_design := sanitized design;
                 timestamp := now;
                 printFileUrl := printFile |} in
            (mkShop (order :: orders shop) SUCCESS, None)
        | Rejected _ =>
            (shop, Some "Nepodarilo sa vygenerovať tlačový súbor.")
        end
    end.

End Orders.

(** [handleDeleteOrder]; [confirmed] is the answer to [window.confirm]. *)
Definition handleDeleteOrder (confirmed : bool) (orderId : string) (shop : Shop) : Shop :=
  if confirmed
  then mkShop (filter (fun o => negb (order_id o =? orderId)) (orders shop))
              (viewMode shop)
  else shop.

(** The models that a list of files gives, and the names of the files
    that fail, in the order of the files. *)
Definition resolved_models (files : list TemplateFile) : list PhoneModel :=
  flat_map (fun f => match process_file f with
                     | Resolved m => [m]
                     | Rejected _ => []
                     end) files.

Definition rejected_names (files : list TemplateFile) : list string :=
  flat_map (fun f => match process_file f with
                     | Resolved _ => []
                     | Rejected _ => [tf_name f]
                     end) files.

(* ================================================================= *)
(** ** Colour spectrum bar (App.tsx, [ColorSpectrumBar])

    The bar maps a position in percent to a colour of the hue circle
    and a colour back to a position.  Colours are strings of ASCII
    characters. *)

(** Value of a hexadecimal digit. *)
Definition hex_digit (c : ascii) : option N :=
  let n := N_of_ascii c in
  if ((48 <=? n) && (n <=? 57))%N then Some (n - 48)%N
  else if ((97 <=? n) && (n <=? 102))%N then Some (n - 87)%N
  else if ((65 <=? n) && (n <=? 70))%N then Some (n - 55)%N
  else None.

(** The longest prefix of hexadecimal digits, read as a number; [acc] is
    absent until a digit has been read. *)
Fixpoint hex_digits (acc : option N) (s : string) : option N :=
  match s with
  | String c rest =>
      match hex_digit c with
      | Some d =>
          hex_digits
            (Some (16 * match acc with Some a => a | None => 0 end + d)%N)
            rest
      | None => acc
      end
  | EmptyString => acc
  end.

Definition is_white_space (c : ascii) : bool :=
  let n := N_of_ascii c in
  (((9 <=? n) && (n <=? 13)) || (n =? 32))%N.

Fixpoint trim_start (s : string) : string :=
  match s with
  | String c rest => if is_white_space c then trim_start rest else s
  | EmptyString => s
  end.

(** [parseInt(s, 16)]: leading white space, a sign and a [0x] prefix are
    skipped, then the digits are read; [None] is NaN. *)
Definition parseInt16 (s : string) : option Q :=
  let s := trim_start s in
  let (sign, s) :=
    match s with
    | String "-" rest => ((-1)%Z, rest)
    | String "+" rest => (1%Z, rest)
    | _ => (1%Z, s)
    end in
  let s :=
    if String.prefix "0x" s || String.prefix "0X" s then drop 2 s else s in
  match hex_digits None s with
  | Some n => Some (inject_Z (sign * Z.of_N n))
  | None => None
  end.

(** The hue of three channels, in percent.  A comparison with NaN is
    false and no [case] equals NaN, so the hue of an unreadable colour
    stays 0. *)
Definition hue_position (r g b : option Q) : Q :=
  match r, g, b with
  | Some r, Some g, Some b =>
      let max := Math_max r (Math_max g b) in
      let min := Math_min r (Math_min g b) in
      let h :=
        if negb (Qeq_bool max min) then
          let d := max - min in
          if Qeq_bool max r then
            ((g - b) / d + (if Qlt_bool g b then 6 else 0)) / 6
          else if Qeq_bool max g then ((b - r) / d + 2) / 6
          else if Qeq_bool max b then ((r - g) / d + 4) / 6
          else 0
        else 0 in
      h * 100
  | _, _, _ => 0 * 100
  end.

Definition channel (hex : string) (i : nat) : option Q :=
  match parseInt16 (substring i 2 hex) with
  | Some n => Some (n / 255)
  | None => None
  end.

Definition hexToPosition (hex : string) : Q :=
  let hex := replace_first "#" "" hex in
  hue_position (channel hex 0) (channel hex 2) (channel hex 4).

Definition hue2rgb (p q t : Q) : Q :=
  let t := if Qlt_bool t 0 then t + 1 else t in
  let t := if Qgt_bool t 1 then t - 1 else t in
  if Qlt_bool t (1 / 6) then p + (q - p) * 6 * t
  else if Qlt_bool t (1 / 2) then q
  else if Qlt_bool t (2 / 3) then p + (q - p) * (2 / 3 - t) * 6
  else p.

(** [Math.round]: the nearest integer, a half towards plus infinity. *)
Definition Math_round (a : Q) : Z := Qfloor (a + 1 / 2).

(** [n.toString(16)] of an integer. *)
Definition toString16 (n : Z) : string :=
  let digits (m : Z) :=
    HexadecimalString.NilZero.string_of_uint (N.to_hex_uint (Z.to_N m)) in
  if (n <? 0)%Z then "-" ++ digits (- n)%Z else digits n.

Definition toHex (n : Q) : string :=
  let hex := toString16 (Math_round (n * 255)) in
  if (String.length hex =? 1)%nat then "0" ++ hex else hex.

(** The three channels of the colour at a position, before [toHex]. *)
Definition position_rgb (position : Q) : Q * Q * Q :=
  let hue := position / 100 * 360 in
  let saturation := 1 in
  let lightness := 1 / 2 in
  let h := hue / 360 in
  let s := saturation in
  let l := lightness in
  let q := if Qlt_bool l (1 / 2) then l * (1 + s) else l + s - l * s in
  let p := 2 * l - q in
  (hue2rgb p q (h + 1 / 3), hue2rgb p q h, hue2rgb p q (h - 1 / 3)).

Definition positionToHex (position : Q) : string :=
  let '(r, g, b) := position_rgb position in
  "#" ++ toHex r ++ toHex g ++ toHex b.

(** [updateColor] and [updateColorFromTouch]: the pointer's abscissa
    within the bar, in percent and kept in the bar, and its colour.
    [rect] is the bar's [left] and [width]; nothing happens while the
    bar is not mounted. *)
Definition updateColor (rect : option (Q * Q)) (clientX : Q)
  : option (Q * string) :=
  match rect with
  | Some (rect_left, width) =>
      let x := clientX - rect_left in
      let position := Math_max 0 (Math_min 100 (x / width * 100)) in
      Some (position, positionToHex position)
  | None => None
  end.

(** A colour written as the bar writes it, from its three bytes. *)
Definition byte_hex (n : Z) : string :=
  let hex := toString16 n in
  if (String.length hex =? 1)%nat then "0" ++ hex else hex.

Definition rgb_hex (r g b : Z) : string :=
  "#" ++ byte_hex r ++ byte_hex g ++ byte_hex b.

(** The colours of the hue circle: one channel full, one channel empty. *)
Definition saturated (r g b : Z) : bool :=
  ((0 <=? r) && (r <=? 255) && (0 <=? g) && (g <=? 255)
   && (0 <=? b) && (b <=? 255)
   && (Z.max r (Z.max g b) =? 255) && (Z.min r (Z.min g b) =? 0))%Z.

Definition bytes : list Z := map Z.of_nat (seq 0 256).

Definition hue_circle : list (Z * Z * Z) :=
  flat_map
    (fun v => [(255, v, 0); (255, 0, v); (v, 255, 0);
               (0, 255, v); (v, 0, 255); (0, v, 255)]%Z)
    bytes.

(** A colour of the list as the bar writes it, and what the bar makes of
    it after placing its slider on it. *)
Definition written (c : Z * Z * Z) : string :=
  rgb_hex (fst (fst c)) (snd (fst c)) (snd c).

Definition replaced (c : Z * Z * Z) : string :=
  positionToHex (hexToPosition (written c)).

(* ================================================================= *)
(** ** Sample data of the editor and the application *)

Definition sample_text_editor : Editor :=
  {| design := sample_design;
     container_width := 500; container_height := 800;
     isDragging := false; dragStartRef := None;
     startDistance := None; initialScale := 1 |}.

Definition sample_ui : EditorUI := mkEditorUI sample_text_editor None None None.

(** Rational stand-ins for [Math.atan2] and [trim], used in instances
    only. *)
Definition sample_atan2 (dy dx : Q) : Q := dy / (1 + dx * dx).

Definition sample_trim (s : string) : string := trim_start s.

Definition sample_controls : TextControls :=
  mkTextControls "  Ahoj" "Roboto" "#1e293b" None.

Definition sample_selection : TextControls :=
  mkTextControls "" "Roboto" "#1e293b" (Some "text-1").

Definition sample_rotate_drag : RotateDrag :=
  mkRotateDrag sample_design "text-1" 0 50 100 0.

Definition sample_model_2 : PhoneModel :=
  {| id := "custom-2"; name := "case 2"; brand := "Vlastná šablóna";
     width := 100; height := 200; minX := Some 0; minY := Some 0;
     screenRatio := 100 / 200;
     svgPath := shapeToPath (sample_rect "rgb(255, 0, 255)" "none");
     cameraPath := [];
     safeZonePath := generated_safe_zone (mkBBox 0 0 100 200) |}.

Definition sample_templates : Templates :=
  mkTemplates [sample_model; sample_model_2] (Some sample_model).

Definition sample_document : Document :=
  mkDocument true [sample_rect "rgb(255, 0, 255)" "none"].

Definition sample_files : list TemplateFile :=
  [mkTemplateFile "a.svg" "custom-3" (Some sample_document);
   mkTemplateFile "b.svg" "custom-4" None].

Definition sample_shop : Shop := mkShop [] EDITOR.

(* ================================================================= *)
(** * Properties *)

Local Open Scope list_scope.

(* ----------------------------------------------------------------- *)
(** ** The model on small inputs *)

Example parseRGB_reads_first_three_numbers :
  parseRGB "rgba(236, 0, 140, 0.5)" = Some (mkRGB 236 0 140).
Proof. reflexivity. Qed.

Example parseRGB_needs_three_numbers : parseRGB "url(#grad1)" = None.
Proof. reflexivity. Qed.

Example replace_first_replaces_once :
  replace_first ".svg" "" "case.svg.svg" = "case.svg"%string.
Proof. reflexivity. Qed.

Example plain_rect_contour :
  read_path (shapeToPath (sample_rect "none" "none")) =
  Some [MoveTo 0 0; LineTo 100 0; LineTo 100 200; LineTo 0 200; ClosePath].
Proof. reflexivity. Qed.

Example circle_path_is_not_read :
  path_truthy (shapeToPath (sample_circle "none" "none")) = true /\
  read_path (shapeToPath (sample_circle "none" "none")) = None.
Proof. split; reflexivity. Qed.

Example safe_zone_of_the_scenario :
  option_map vertices (read_path (generated_safe_zone (mkBBox 0 0 100 200))) =
  Some [(5, 5); (5 + 90, 5); (5 + 90, 5 + 190); (5 + 90 + -90, 5 + 190)].
Proof. reflexivity. Qed.

Example wheel_zoom_in_stops_at_10 :
  scale (design
    (@handleWheel (mkWheelEvent (-100) true false)
       (mkEditor (with_scale sample_design 9.95) 500 800 false None None 1)))
  == 10.
Proof. reflexivity. Qed.

Example pinch_doubles_the_scale :
  scale (design
    (@dispatch_all sample_host sample_model
       [touchstart [mkTouch 0 0; mkTouch 3 4];
        touchmove [mkTouch 0 0; mkTouch 6 8]]
       (mkEditor sample_design 500 800 false None None 1)))
  == 2.
Proof. reflexivity. Qed.

Example fit_covers_the_case :
  scale (fit_to_case sample_model sample_moved_design) == 2 / 5.
Proof. reflexivity. Qed.

(* ----------------------------------------------------------------- *)
(** ** Colour classification *)

Lemma eqb_false_of_neq (a b : string) : a <> b -> (a =? b) = false.
Proof. intro Hn. apply String.eqb_neq. exact Hn. Qed.

Lemma rgb_is_true (c : RGB) (r g b : N) :
  rgb_is c r g b = true <-> (rgb_r c, rgb_g c, rgb_b c) = (r, g, b).
Proof.
  unfold rgb_is. rewrite !andb_true_iff, !N.eqb_eq. split.
  - intros [[-> ->] ->]. reflexivity.
  - intro E. injection E as -> -> ->. auto.
Qed.

(** A candidate of some class ends the loop with that class. *)
Lemma color_loop_matched (c : string) (rest : list string) (t : ColorType) :
  matches_class c t -> color_loop (c :: rest) = t.
Proof.
  intros (H1 & H2 & H3 & rgb & Hp & Hin). simpl.
  unfold truthy_str.
  rewrite (eqb_false_of_neq _ _ H1), (eqb_false_of_neq _ _ H2),
    (eqb_false_of_neq _ _ H3), Hp. simpl.
  destruct rgb as [r g b]. unfold rgb_is. simpl in *.
  destruct t; simpl in Hin; try contradiction;
    destruct Hin as [E | [E | []]]; injection E as <- <- <-; reflexivity.
Qed.

(** A candidate of no class is skipped. *)
Lemma color_loop_skipped (c : string) (rest : list string) :
  matches_no_class c -> color_loop (c :: rest) = color_loop rest.
Proof.
  intro Hno. simpl.
  destruct (negb (truthy_str c) || (c =? "none") || (c =? "transparent")) eqn:G;
    [reflexivity | ].
  apply orb_false_iff in G. destruct G as [G G3].
  apply orb_false_iff in G. destruct G as [G1 G2].
  unfold truthy_str in G1. rewrite negb_involutive in G1.
  apply String.eqb_neq in G1, G2, G3.
  destruct (parseRGB c) as [rgb | ] eqn:Hp; [ | reflexivity].
  assert (Hcase : forall t r g b,
             In (r, g, b) (class_colours t) -> rgb_is rgb r g b = false).
  { intros t r g b Hin. destruct (rgb_is rgb r g b) eqn:E; [ | reflexivity].
    exfalso. apply (Hno t). repeat split; try assumption.
    exists rgb. split; [exact Hp | ].
    apply rgb_is_true in E. rewrite E. exact Hin. }
  rewrite (Hcase magenta 255 0 255)%N, (Hcase magenta 236 0 140)%N,
    (Hcase cyan 0 255 255)%N, (Hcase cyan 0 174 239)%N,
    (Hcase red 255 0 0)%N, (Hcase red 237 28 36)%N by (simpl; auto).
  reflexivity.
Qed.

Lemma unset_matches_no_class (c : string) :
  c = "" \/ c = "none" -> matches_no_class c.
Proof.
  intros [-> | ->] t (H1 & H2 & _); [apply H1 | apply H2]; reflexivity.
Qed.

(** C7.  Classification looks at the fill colour, then at the stroke
    colour, and the first of the two that belongs to a class decides: a
    fill of class [t] gives [t]; when the fill is of no class, a stroke of
    class [t] gives [t]; in particular a shape whose fill is absent or
    [none] and whose stroke is magenta is the outline candidate.  A shape
    whose fill and stroke are of no class is [unknown]; the classifier
    leaves its state as it was, and the classification of the document is
    the one of the document without that shape. *)
Theorem fill_then_stroke_classification (el : Element) :
  (forall t, matches_class (style_fill el) t -> getShapeColorType el = t) /\
  (forall t, matches_no_class (style_fill el) ->
             matches_class (style_stroke el) t -> getShapeColorType el = t) /\
  (style_fill el = "" \/ style_fill el = "none" ->
   matches_class (style_stroke el) magenta ->
   getShapeColorType el = magenta /\
   forall st, caseElement (classify_step st el) = Some el) /\
  (matches_no_class (style_fill el) -> matches_no_class (style_stroke el) ->
   getShapeColorType el = unknown /\
   (forall st, classify_step st el = st) /\
   (forall before after,
       classify (before ++ el :: after) = classify (before ++ after))).
Proof.
  assert (Hstroke : forall t, matches_no_class (style_fill el) ->
             matches_class (style_stroke el) t -> getShapeColorType el = t).
  { intros t Hf Hs. unfold getShapeColorType.
    rewrite (color_loop_skipped _ _ Hf). apply color_loop_matched. exact Hs. }
  split; [ | split; [exact Hstroke | split]].
  - intros t Hf. unfold getShapeColorType. apply color_loop_matched. exact Hf.
  - intros Hf Hs.
    assert (E : getShapeColorType el = magenta)
      by (apply Hstroke; [apply unset_matches_no_class; exact Hf | exact Hs]).
    split; [exact E | ]. intro st. unfold classify_step. rewrite E. reflexivity.
  - intros Hf Hs.
    assert (E : getShapeColorType el = unknown).
    { unfold getShapeColorType.
      rewrite (color_loop_skipped _ _ Hf), (color_loop_skipped _ _ Hs).
      reflexivity. }
    assert (Hstep : forall st, classify_step st el = st)
      by (intro st; unfold classify_step; rewrite E; reflexivity).
    split; [exact E | split; [exact Hstep | ]].
    intros before after. unfold classify.
    rewrite !fold_left_app. simpl. rewrite Hstep. reflexivity.
Qed.

(* ----------------------------------------------------------------- *)
(** ** The classifier loop *)

(** The state of the loop after a list of shapes: the last magenta shape
    (or the one held before), and the cyan and red shapes appended in
    order. *)
Lemma classify_from (l : list Element) : forall st,
  fold_left classify_step l st =
  mkClassified (last_or (caseElement st) (keep magenta l))
               (cameraElements st ++ keep cyan l)
               (safeZoneElements st ++ keep red l).
Proof.
  induction l as [ | e l IH]; intro st.
  - destruct st. simpl. rewrite !app_nil_r. reflexivity.
  - simpl. rewrite IH. unfold classify_step, keep. simpl.
    destruct (getShapeColorType e); simpl;
      rewrite <- ?app_assoc; reflexivity.
Qed.

Lemma keep_none (t : ColorType) (l : list Element) :
  (forall e, In e l -> getShapeColorType e <> t) -> keep t l = [].
Proof.
  induction l as [ | e l IH]; intro Hno; [reflexivity | ].
  unfold keep in *. simpl.
  destruct (ColorType_eqb (getShapeColorType e) t) eqn:E.
  - exfalso. apply (Hno e); [left; reflexivity | ].
    destruct (getShapeColorType e), t; simpl in E; congruence.
  - apply IH. intros e' Hin. apply Hno. right. exact Hin.
Qed.

Lemma keep_app (t : ColorType) (l1 l2 : list Element) :
  keep t (l1 ++ l2) = keep t l1 ++ keep t l2.
Proof. apply filter_app. Qed.

Lemma keep_not_magenta (t : ColorType) (l : list Element) :
  t <> magenta ->
  keep t (filter (fun e => negb (is_magenta e)) l) = keep t l.
Proof.
  intro Ht. unfold keep, is_magenta.
  induction l as [ | e l IH]; [reflexivity | ]. simpl.
  destruct (getShapeColorType e) eqn:E; simpl; rewrite ?E, ?IH;
    destruct t; simpl; congruence.
Qed.

Lemma last_or_snoc (d : option Element) (l : list Element) (e : Element) :
  last_or d (l ++ [e]) = Some e.
Proof. unfold last_or. rewrite fold_left_app. reflexivity. Qed.

(** C3.  In a list of shapes, the outline is the last magenta shape in
    input order: when [e] is magenta and no shape after it is, [e] is the
    outline, whatever came before it.  The magenta shapes before it leave
    no trace: the classification is the one of the list without them. *)
Theorem last_outline_match_wins (before after : list Element) (e : Element) :
  getShapeColorType e = magenta ->
  (forall e', In e' after -> getShapeColorType e' <> magenta) ->
  caseElement (classify (before ++ e :: after)) = Some e /\
  classify (before ++ e :: after) =
  classify (filter (fun e' => negb (is_magenta e')) before ++ e :: after).
Proof.
  intros He Hafter.
  assert (Hk : forall l, keep magenta (l ++ e :: after) = keep magenta l ++ [e]).
  { intro l. rewrite keep_app. f_equal.
    change (e :: after) with ([e] ++ after). rewrite keep_app.
    rewrite (keep_none magenta after Hafter), app_nil_r.
    unfold keep. simpl. rewrite He. reflexivity. }
  unfold classify. rewrite !classify_from. simpl.
  rewrite !Hk, !last_or_snoc. split; [reflexivity | ].
  rewrite !keep_app, !keep_not_magenta by discriminate.
  reflexivity.
Qed.

(** C4.  A template in which no shape is magenta yields no model at
    all: the builder rejects it.  When the document has an [svg] element
    the diagnostic is the one about the missing magenta shape, which names
    the colour and both accepted hex values. *)
Theorem no_outline_is_rejected (file_name fresh_id : string) (doc : Document) :
  (forall e, In e (shapeElements doc) -> getShapeColorType e <> magenta) ->
  (forall m, processSingleTemplate file_name fresh_id doc <> Resolved m) /\
  (svgElement doc = true ->
   processSingleTemplate file_name fresh_id doc = Rejected magenta_missing) /\
  contains "Magentov" magenta_missing = true /\
  contains "#ec008c" magenta_missing = true /\
  contains "#ff00ff" magenta_missing = true.
Proof.
  intro Hno.
  assert (Hcase : caseElement (classify (shapeElements doc)) = None).
  { unfold classify. rewrite classify_from.
    rewrite (keep_none magenta _ Hno). reflexivity. }
  unfold processSingleTemplate. rewrite Hcase.
  repeat split; try reflexivity.
  - intro m. destruct (svgElement doc); simpl; discriminate.
  - intros ->. reflexivity.
Qed.

Ltac no_class :=
  let t := fresh "t" in
  let Hp := fresh "Hp" in
  let Hin := fresh "Hin" in
  intros t (_ & _ & _ & ? & Hp & Hin);
  vm_compute in Hp; try discriminate Hp;
  injection Hp as <-; destruct t; simpl in Hin;
  repeat (destruct Hin as [Hin | Hin]; try discriminate Hin);
  try contradiction.

Ltac in_class :=
  repeat (split; [discriminate | ]);
  eexists; split; [vm_compute; reflexivity | simpl; auto].

Lemma fill_then_stroke_classification_witness :
  getShapeColorType (sample_rect "rgb(0, 174, 239)" "rgb(255, 0, 255)") = cyan /\
  getShapeColorType (sample_rect "rgb(0, 0, 0)" "rgb(237, 28, 36)") = red /\
  getShapeColorType (sample_rect "none" "rgb(236, 0, 140)") = magenta /\
  classify_step no_shapes (sample_rect "rgb(0, 0, 0)" "rgb(10, 20, 30)") = no_shapes.
Proof.
  split; [ | split; [ | split]].
  - apply (proj1 (fill_then_stroke_classification _)). simpl. in_class.
  - apply (proj1 (proj2 (fill_then_stroke_classification _))); simpl.
    + no_class.
    + in_class.
  - apply (proj1 (proj2 (proj2 (fill_then_stroke_classification _)))); simpl.
    + right. reflexivity.
    + in_class.
  - apply (proj2 (proj2 (proj2 (fill_then_stroke_classification _)))); simpl;
      no_class.
Defined.

Lemma last_outline_match_wins_witness :
  caseElement
    (classify [sample_rect "rgb(255, 0, 255)" "none";
               sample_circle "rgb(0, 255, 255)" "none";
               sample_round_rect "none" "rgb(236, 0, 140)";
               sample_circle "rgb(255, 0, 0)" "none"])
  = Some (sample_round_rect "none" "rgb(236, 0, 140)").
Proof.
  apply (last_outline_match_wins
           [sample_rect "rgb(255, 0, 255)" "none";
            sample_circle "rgb(0, 255, 255)" "none"]
           [sample_circle "rgb(255, 0, 0)" "none"]).
  - vm_compute. reflexivity.
  - intros e' [<- | []]. vm_compute. discriminate.
Defined.

Lemma no_outline_is_rejected_witness :
  processSingleTemplate "case.svg" "custom-1"
    (mkDocument true [sample_circle "rgb(0, 255, 255)" "none";
                      sample_rect "rgb(0, 0, 0)" "none"])
  = Rejected magenta_missing.
Proof.
  apply (no_outline_is_rejected "case.svg" "custom-1").
  - intros e [<- | [<- | []]]; vm_compute; discriminate.
  - reflexivity.
Defined.

(* ----------------------------------------------------------------- *)
(** ** The template builder on the reference scenario *)

(** The synthesized safe zone of a box of non-negative width is the box
    shrunk by 5% of its width on every side. *)
Lemma generated_safe_zone_draws_inset (b : BBox) :
  0 <= bbox_width b ->
  draws_rect (generated_safe_zone b)
             (bbox_x b + bbox_width b * 0.05) (bbox_y b + bbox_width b * 0.05)
             (bbox_width b - 2 * (bbox_width b * 0.05))
             (bbox_height b - 2 * (bbox_width b * 0.05)) = true.
Proof.
  intro Hw. destruct b as [bx by_ bw bh]. cbn [bbox_x bbox_y bbox_width bbox_height] in *.
  unfold generated_safe_zone, interp.
  cbn [bbox_x bbox_y bbox_width bbox_height].
  remember (Qred (bx + bw * 0.05)) as px eqn:Epx.
  remember (Qred (by_ + bw * 0.05)) as py eqn:Epy.
  remember (Qred (bw - 2 * (bw * 0.05))) as pw eqn:Epw.
  remember (Qred (bh - 2 * (bw * 0.05))) as ph eqn:Eph.
  assert (Hpx : px == bx + bw * 0.05) by (subst px; apply Qred_correct).
  assert (Hpy : py == by_ + bw * 0.05) by (subst py; apply Qred_correct).
  assert (Hpw : pw == bw - 2 * (bw * 0.05)) by (subst pw; apply Qred_correct).
  assert (Hph : ph == bh - 2 * (bw * 0.05)) by (subst ph; apply Qred_correct).
  clear Epx Epy Epw Eph.
  assert (Hpos : Qle_bool 0 pw = true) by (apply Qle_bool_iff; lra).
  unfold draws_rect, read_path, tokens. cbn [flat_map tokens_of_piece app].
  cbn [tokens_of_text Ascii.eqb Bool.eqb is_letter nat_of_ascii].
  simpl. rewrite Hpos. simpl.
  unfold point_eqb. cbn [fst snd].
  repeat (apply andb_true_iff; split); try reflexivity;
    apply Qeq_bool_iff; lra.
Qed.

(** A rectangle always converts to a non-empty path. *)
Lemma rect_path_truthy (el : Element) :
  tagName el = "rect" -> path_truthy (shapeToPath el) = true.
Proof.
  intro Ht. unfold shapeToPath. rewrite Ht. simpl.
  destruct (Qgt_bool (num_attr el "rx") 0 || Qgt_bool (num_attr_or el "ry" "rx") 0);
    reflexivity.
Qed.

(** C2 (as amended).  A template with one magenta rectangle [x=0, y=0,
    width=100, height=200], one cyan circle [cx=80, cy=40, r=10] and no
    red shape, in either order, gives a model with [width = 100],
    [height = 200], [minX = 0], [minY = 0], a non-empty [cameraPath], and
    a synthesized [safeZonePath] that draws the rectangle [x=5, y=5,
    w=90, h=190]: the inset of 5% of the width is taken off every side. *)
Theorem scenario_template_model
        (file_name fresh_id : string) (rect circle : Element)
        (shapes : list Element) :
  tagName rect = "rect" ->
  attrs rect = [("x", 0); ("y", 0); ("width", 100); ("height", 200)] ->
  getShapeColorType rect = magenta ->
  tagName circle = "circle" ->
  attrs circle = [("cx", 80); ("cy", 40); ("r", 10)] ->
  getShapeColorType circle = cyan ->
  shapes = [rect; circle] \/ shapes = [circle; rect] ->
  exists m,
    processSingleTemplate file_name fresh_id (mkDocument true shapes) = Resolved m /\
    width m = 100 /\ height m = 200 /\ minX m = Some 0 /\ minY m = Some 0 /\
    path_truthy (cameraPath m) = true /\
    draws_rect (safeZonePath m) 5 5 90 190 = true.
Proof.
  intros Hrt Hra Hrc Hct Hca Hcc Hshapes.
  assert (Hfound : classify shapes = mkClassified (Some rect) [circle] []).
  { unfold classify. rewrite classify_from. unfold keep.
    destruct Hshapes as [-> | ->]; simpl; rewrite Hrc, Hcc; reflexivity. }
  assert (Hbox : getBBox rect = mkBBox 0 0 100 200).
  { unfold getBBox, num_attr. rewrite Hrt, Hra. reflexivity. }
  assert (Hcam : path_truthy (join_paths [circle]) = true).
  { unfold join_paths, join_step, shapeToPath. simpl. rewrite Hct. reflexivity. }
  unfold processSingleTemplate.
  cbn [svgElement shapeElements negb]. rewrite Hfound.
  cbn [caseElement cameraElements safeZoneElements].
  rewrite (rect_path_truthy rect Hrt), Hbox. cbn [negb].
  eexists. split; [reflexivity | ].
  cbn [width height minX minY cameraPath safeZonePath
       bbox_x bbox_y bbox_width bbox_height].
  repeat split; try reflexivity. exact Hcam.
Qed.

Lemma scenario_template_model_witness :
  exists m,
    processSingleTemplate "case.svg" "custom-1"
      (mkDocument true [sample_rect "rgb(255, 0, 255)" "none";
                        sample_circle "rgb(0, 255, 255)" "none"]) = Resolved m /\
    width m = 100 /\ height m = 200 /\ minX m = Some 0 /\ minY m = Some 0 /\
    path_truthy (cameraPath m) = true /\
    draws_rect (safeZonePath m) 5 5 90 190 = true.
Proof.
  apply (scenario_template_model "case.svg" "custom-1"
           (sample_rect "rgb(255, 0, 255)" "none")
           (sample_circle "rgb(0, 255, 255)" "none"));
    try reflexivity.
  left. reflexivity.
Defined.

(** C2, as stated, fails: on the scenario's document the synthesized safe
    zone is not the rectangle [x=5, y=10, w=90, h=180]. *)
Lemma scenario_safe_zone_is_not_5_10_90_180 :
  ~ exists m,
      processSingleTemplate "case.svg" "custom-1"
        (mkDocument true [sample_rect "rgb(255, 0, 255)" "none";
                          sample_circle "rgb(0, 255, 255)" "none"]) = Resolved m /\
      width m = 100 /\ height m = 200 /\ minX m = Some 0 /\ minY m = Some 0 /\
      path_truthy (cameraPath m) = true /\
      draws_rect (safeZonePath m) 5 10 90 180 = true.
Proof.
  intros (m & Hm & _ & _ & _ & _ & _ & Hdraw).
  vm_compute in Hm. injection Hm as <-.
  vm_compute in Hdraw. discriminate Hdraw.
Qed.

(* ----------------------------------------------------------------- *)
(** ** Rounded rectangles *)

Lemma Qgt_bool_true (a b : Q) : Qgt_bool a b = true <-> b < a.
Proof.
  unfold Qgt_bool. rewrite negb_true_iff. split.
  - intro E. apply Qnot_le_lt. intro Hle.
    apply Qle_bool_iff in Hle. congruence.
  - intro Hlt. destruct (Qle_bool a b) eqn:E; [ | reflexivity].
    apply Qle_bool_iff in E. exfalso. apply (Qlt_not_le _ _ Hlt E).
Qed.

(** C5 (as amended).  A rectangle with a positive corner radius ([rx], or
    [ry], which defaults to [rx]) converts to a closed contour of eight
    segments, a straight edge then a rounded corner four times over; the
    horizontal corner radius is [min(rx, width/2)] and the vertical one
    [min(ry, height/2)], each clamped on its own axis. *)
Theorem rounded_rect_contour (el : Element) :
  tagName el = "rect" ->
  0 < num_attr el "rx" \/ 0 < num_attr_or el "ry" "rx" ->
  let contour :=
    rounded_contour (num_attr el "x") (num_attr el "y")
                    (num_attr el "width") (num_attr el "height")
                    (Qmin (num_attr el "rx") (num_attr el "width" / 2))
                    (Qmin (num_attr_or el "ry" "rx") (num_attr el "height" / 2)) in
  read_path (shapeToPath el) = Some (canon contour) /\
  map kind_of contour =
    [move; edge; corner; edge; corner; edge; corner; edge; corner; close] /\
  closed contour = true.
Proof.
  intros Ht Hr contour.
  assert (Hcond : Qgt_bool (num_attr el "rx") 0
                  || Qgt_bool (num_attr_or el "ry" "rx") 0 = true).
  { apply orb_true_iff.
    destruct Hr as [Hr | Hr]; [left | right]; apply Qgt_bool_true; exact Hr. }
  unfold shapeToPath. rewrite Ht. cbn [String.eqb Ascii.eqb Bool.eqb].
  rewrite Hcond. repeat split.
Qed.

Lemma rounded_rect_contour_witness :
  read_path (shapeToPath (sample_round_rect "rgb(255, 0, 255)" "none")) =
  Some (canon (rounded_contour 0 0 100 200 (Qmin 80 (100 / 2)) (Qmin 80 (200 / 2)))).
Proof.
  apply (rounded_rect_contour (sample_round_rect "rgb(255, 0, 255)" "none")).
  - reflexivity.
  - left. reflexivity.
Defined.

(** C5, as stated, fails: for the rectangle [100 x 200] with declared
    radius 80, the contour is not the one with the single radius
    [min(80, half of the shorter side)] at every corner. *)
Lemma rounded_rect_radius_is_not_shorter_side_clamp :
  read_path (shapeToPath (sample_round_rect "rgb(255, 0, 255)" "none")) <>
  Some (canon (rounded_contour 0 0 100 200
                               (Qmin 80 (Qmin (100 / 2) (200 / 2)))
                               (Qmin 80 (Qmin (100 / 2) (200 / 2))))).
Proof. vm_compute. discriminate. Qed.

(* ----------------------------------------------------------------- *)
(** ** Fit to case *)

Lemma truthy_num_true (a : Q) : ~ a == 0 -> truthy_num a = true.
Proof.
  intro Hn. unfold truthy_num. destruct (Qeq_bool a 0) eqn:E; [ | reflexivity].
  apply Qeq_bool_iff in E. contradiction.
Qed.

Lemma truthy_str_true (s : string) : s <> "" -> truthy_str s = true.
Proof.
  intro Hn. unfold truthy_str. rewrite (eqb_false_of_neq _ _ Hn). reflexivity.
Qed.

(** C6.  For a design with a loaded image of natural size [w x h] (both
    non-zero) and any model, "fit to case" sets [scale] to
    [max(width / w, height / h)] and [x], [y] and [rotation] to zero,
    leaving the rest of the design as it was; fitting a second time
    changes nothing. *)
Theorem fit_to_case_cover_idempotent
        (model : PhoneModel) (d : DesignState) (src : string) (w h : Q) :
  imageSrc d = Some src -> src <> "" ->
  imgWidth d = Some w -> ~ w == 0 ->
  imgHeight d = Some h -> ~ h == 0 ->
  fit_to_case model d =
    {| scale := Math_max (width model / w) (height model / h);
       x := 0; y := 0; rotation := 0;
       imageSrc := imageSrc d; imgWidth := imgWidth d; imgHeight := imgHeight d;
       textElements := textElements d |} /\
  (width model / w <= scale (fit_to_case model d) /\
   height model / h <= scale (fit_to_case model d) /\
   (scale (fit_to_case model d) == width model / w \/
    scale (fit_to_case model d) == height model / h)) /\
  fit_to_case model (fit_to_case model d) = fit_to_case model d.
Proof.
  intros Hsrc Hne Hw Hw0 Hh Hh0.
  assert (Hfit : forall d', imageSrc d' = Some src -> imgWidth d' = Some w ->
                            imgHeight d' = Some h ->
            fit_to_case model d' =
            {| scale := Math_max (width model / w) (height model / h);
               x := 0; y := 0; rotation := 0;
               imageSrc := imageSrc d'; imgWidth := imgWidth d';
               imgHeight := imgHeight d'; textElements := textElements d' |}).
  { intros d' E1 E2 E3. unfold fit_to_case, handleAutoFill.
    rewrite E1, E2, E3. simpl.
    rewrite (truthy_str_true _ Hne), (truthy_num_true _ Hw0),
      (truthy_num_true _ Hh0). simpl. rewrite ?E1, ?E2, ?E3. reflexivity. }
  split; [apply Hfit; assumption | split].
  { rewrite (Hfit d Hsrc Hw Hh). cbn [scale]. unfold Math_max.
    split; [apply Q.le_max_l | split; [apply Q.le_max_r | ]].
    destruct (Q.max_spec (width model / w) (height model / h))
      as [[_ E] | [_ E]]; [right | left]; exact E. }
  rewrite (Hfit d Hsrc Hw Hh) at 1.
  rewrite Hfit by (simpl; assumption).
  rewrite (Hfit d Hsrc Hw Hh). reflexivity.
Qed.

Lemma fit_to_case_cover_idempotent_witness :
  fit_to_case sample_model sample_moved_design =
    mkDesignState (Math_max (100 / 300) (200 / 500)) 0 0 0
                  (Some "data:image/png"%string) (Some 300) (Some 500)
                  (Some [sample_text]) /\
  fit_to_case sample_model (fit_to_case sample_model sample_moved_design)
  = fit_to_case sample_model sample_moved_design.
Proof.
  destruct (fit_to_case_cover_idempotent
              sample_model sample_moved_design "data:image/png" 300 500)
    as (Hfit & _ & Hagain); try reflexivity; try discriminate.
  split; [exact Hfit | exact Hagain].
Defined.

(* ----------------------------------------------------------------- *)
(** ** The print compositor *)

Section CompositorProperties.
Context `{HostMath}.

Lemma text_calls_exec (model : PhoneModel) (t : TextElement) (st : canvas_state) :
  ctm st = native_frame model -> clips st = outline_clip model ->
  fold_left exec (text_calls (centre_x model) (centre_y model) t) st =
  mkCanvasState (ctm st) (clips st) (saved st)
                (paints st ++ [text_paint model t]).
Proof.
  intros Hm Hc. destruct st as [m cl sv ps]. simpl in *. subst.
  reflexivity.
Qed.

Lemma texts_exec (model : PhoneModel) (ts : list TextElement) :
  forall st,
    ctm st = native_frame model -> clips st = outline_clip model ->
    fold_left exec (flat_map (text_calls (centre_x model) (centre_y model)) ts) st =
    mkCanvasState (ctm st) (clips st) (saved st)
                  (paints st ++ map (text_paint model) ts).
Proof.
  induction ts as [ | t ts IH]; intros st Hm Hc.
  - destruct st. simpl. rewrite app_nil_r. reflexivity.
  - cbn [flat_map]. rewrite fold_left_app.
    rewrite (text_calls_exec model t st Hm Hc).
    rewrite IH by assumption.
    cbn [ctm clips saved paints]. rewrite <- app_assoc. reflexivity.
Qed.

(** What the calls of the [onload] handler paint. *)
Lemma onload_paints (model : PhoneModel) (d : DesignState) (w h : Q) :
  paints (run (onload_calls model d w h)) = composite model d w h.
Proof.
  unfold run, onload_calls, composite, texts_of, text_layer.
  rewrite !fold_left_app.
  destruct (textElements d) as [[ | t ts] | ]; try reflexivity.
  rewrite !fold_left_app.
  set (st := fold_left exec [save; clip (svgPath model)] _).
  pose proof (texts_exec model (t :: ts) st) as E.
  unfold centre_x, centre_y in E. rewrite E; reflexivity.
Qed.

(** A translation moves the origin of the frame; scaling and rotating
    keep it. *)
Lemma m_translate_origin (m : matrix) (tx ty : Q) :
  m_e (m_translate m tx ty) = m_a m * tx + m_c m * ty + m_e m /\
  m_f (m_translate m tx ty) = m_b m * tx + m_d m * ty + m_f m /\
  m_a (m_translate m tx ty) = m_a m /\ m_b (m_translate m tx ty) = m_b m /\
  m_c (m_translate m tx ty) = m_c m /\ m_d (m_translate m tx ty) = m_d m.
Proof. repeat split. Qed.

Lemma m_apply_origin (m : matrix) (px py : Q) :
  px == 0 -> py == 0 ->
  fst (m_apply m (px, py)) == m_e m /\ snd (m_apply m (px, py)) == m_f m.
Proof.
  intros Ex Ey. unfold m_apply. cbn [fst snd]. rewrite Ex, Ey. split; ring.
Qed.

Lemma image_matrix_origin (model : PhoneModel) (d : DesignState) :
  m_e (image_matrix model d) == scaleFactor * (width model / 2 + x d) /\
  m_f (image_matrix model d) == scaleFactor * (height model / 2 + y d).
Proof.
  unfold image_matrix.
  change (m_e (m_scale ?m _ _)) with (m_e m).
  change (m_f (m_scale ?m _ _)) with (m_f m).
  change (m_e (m_rotate ?m _)) with (m_e m).
  change (m_f (m_rotate ?m _)) with (m_f m).
  destruct (m_translate_origin
              (m_translate (native_frame model) (centre_x model) (centre_y model))
              (x d) (y d)) as (-> & -> & _).
  destruct (m_translate_origin (native_frame model) (centre_x model) (centre_y model))
    as (-> & -> & -> & -> & -> & ->).
  unfold native_frame.
  destruct (m_translate_origin (m_scale identity scaleFactor scaleFactor)
              (- nullish_num (minX model) 0) (- nullish_num (minY model) 0))
    as (-> & -> & -> & -> & -> & ->).
  unfold centre_x, centre_y, m_scale, identity.
  cbn [m_a m_b m_c m_d m_e m_f].
  split; ring.
Qed.

Lemma image_centre_native (model : PhoneModel) (d : DesignState) (w h : Q) :
  let c := m_apply (image_matrix model d) (- w / 2 + w / 2, - h / 2 + h / 2) in
  fst (to_native model c) == centre_x model + x d /\
  snd (to_native model c) == centre_y model + y d.
Proof.
  intro c.
  destruct (m_apply_origin (image_matrix model d)
                           (- w / 2 + w / 2) (- h / 2 + h / 2)) as [Ex Ey];
    [field | field | ].
  destruct (image_matrix_origin model d) as [Ee Ef].
  unfold to_native. cbn [fst snd]. subst c. rewrite Ex, Ey, Ee, Ef.
  unfold centre_x, centre_y, scaleFactor. split; field.
Qed.

(** C1.  The compositor draws the image layer under the composition, in
    this order, of: the translation to the case centre
    [C = (minX + width/2, minY + height/2)], the translation by the
    design's [(x, y)], the rotation by [rotation] degrees, the uniform
    scaling by [scale], and the placement of the image at
    [(-w/2, -h/2)] at its natural size [w x h]; these calls start in the
    template-native frame with nothing painted yet.  The centre of the
    image therefore lands at [C + (x, y)] in template-native
    coordinates, and at [(50, 100)] for the identity design on a model
    with [width = 100], [height = 200], [minX = minY = 0]. *)
Theorem image_layer_transform_order
        (model : PhoneModel) (d : DesignState) (w h : Q) :
  exists pf,
    generatePrintFile true (Some (w, h)) model d = Resolved pf /\
    (exists before after,
        calls pf =
          before ++
          [translate (centre_x model) (centre_y model);
           translate (x d) (y d);
           rotate ((rotation d * Math_PI) / 180);
           scale_by (scale d) (scale d);
           drawImage w h (- w / 2) (- h / 2)] ++ after /\
        ctm (run before) = native_frame model /\
        paints (run before) = []) /\
    (exists img above c,
        paints (run (calls pf)) = img :: above /\
        image_centre img = Some c /\
        fst (to_native model c) == centre_x model + x d /\
        snd (to_native model c) == centre_y model + y d /\
        (width model == 100 -> height model == 200 ->
         nullish_num (minX model) 0 == 0 -> nullish_num (minY model) 0 == 0 ->
         scale d == 1 -> x d == 0 -> y d == 0 -> rotation d == 0 ->
         fst (to_native model c) == 50 /\ snd (to_native model c) == 100)).
Proof.
  eexists. split; [reflexivity | ]. cbn [calls]. split.
  - exists [scale_by scaleFactor scaleFactor;
            translate (- nullish_num (minX model) 0) (- nullish_num (minY model) 0);
            save; clip (svgPath model)].
    exists (restore :: text_layer model d).
    repeat split.
  - rewrite onload_paints. unfold composite.
    do 3 eexists. split; [reflexivity | ]. split; [reflexivity | ].
    destruct (image_centre_native model d w h) as [Hx Hy].
    split; [exact Hx | split; [exact Hy | ]].
    intros Ew Eh Ex0 Ey0 _ Edx Edy _.
    rewrite Hx, Hy. unfold centre_x, centre_y.
    rewrite Ew, Eh, Ex0, Ey0, Edx, Edy. split; reflexivity.
Qed.


(** C8 (as amended).  Whatever the compositor resolves with, every
    paint on the canvas is the image or a text, clipped by the outline
    path alone; the result does not depend on the model's [cameraPath],
    which is neither painted nor used as a clip. *)
Theorem cutout_is_not_composited
        (has_context : bool) (decoded : option (Q * Q))
        (model : PhoneModel) (d : DesignState) (pf : PrintFile) :
  generatePrintFile has_context decoded model d = Resolved pf ->
  (forall p, In p (paints (run (calls pf))) ->
             is_image p || is_text p = true /\
             clip_paths p = [svgPath model]) /\
  (forall c,
      generatePrintFile has_context decoded (with_cameraPath model c) d
      = Resolved pf).
Proof.
  intro Hpf. unfold generatePrintFile in *.
  destruct has_context; [ | discriminate Hpf].
  destruct decoded as [[w h] | ]; [ | discriminate Hpf].
  cbn [negb] in *. injection Hpf as <-. cbn [calls]. split.
  - intros p Hin. rewrite onload_paints in Hin. unfold composite in Hin.
    destruct Hin as [<- | Hin]; [split; reflexivity | ].
    apply in_map_iff in Hin. destruct Hin as (t & <- & _).
    split; reflexivity.
  - intro c. reflexivity.
Qed.

End CompositorProperties.

Lemma image_layer_transform_order_witness :
  exists pf img above c,
    @generatePrintFile sample_host true (Some (300, 500)) sample_model sample_design
    = Resolved pf /\
    paints (@run sample_host (calls pf)) = img :: above /\
    image_centre img = Some c /\
    fst (to_native sample_model c) == 50 /\ snd (to_native sample_model c) == 100.
Proof.
  destruct (@image_layer_transform_order sample_host sample_model sample_design 300 500)
    as (pf & Hpf & _ & img & above & c & Hp & Hc & _ & _ & Hscenario).
  exists pf, img, above, c.
  split; [exact Hpf | split; [exact Hp | split; [exact Hc | ]]].
  apply Hscenario; reflexivity.
Defined.

Lemma cutout_is_not_composited_witness :
  exists pf,
    @generatePrintFile sample_host true (Some (300, 500)) sample_model sample_design
    = Resolved pf /\
    forall p, In p (paints (@run sample_host (calls pf))) ->
              is_image p || is_text p = true /\
              clip_paths p = [svgPath sample_model].
Proof.
  eexists. split; [reflexivity | ].
  apply (@cutout_is_not_composited sample_host true (Some (300, 500))
           sample_model sample_design).
  reflexivity.
Defined.

(** C8, as stated, fails: for a model with a non-empty cutout path and a
    design with an image and a text, nothing on the canvas is a paint of
    the cutout path. *)
Lemma cutout_is_never_painted :
  exists pf,
    @generatePrintFile sample_host true (Some (300, 500)) sample_model sample_design
    = Resolved pf /\
    path_truthy (cameraPath sample_model) = true /\
    ~ exists p, In p (paints (@run sample_host (calls pf))) /\
                paints_path (cameraPath sample_model) p.
Proof.
  eexists. split; [reflexivity | ]. split; [reflexivity | ].
  intros (p & Hin & m & cl & E). cbn [calls] in Hin.
  rewrite (@onload_paints sample_host) in Hin.
  destruct Hin as [<- | [<- | []]]; discriminate E.
Qed.

(* ----------------------------------------------------------------- *)
(** ** Zooming in the editor *)


Section EditorProperties.
Context `{HostMath}.
Variable model : PhoneModel.





End EditorProperties.


(* ================================================================= *)
(** * Further properties of the code *)

(* ----------------------------------------------------------------- *)
(** ** The editor's view and the print file agree *)

Lemma same_point_refl (p : point) : same_point p p.
Proof. split; reflexivity. Qed.

Lemma same_point_trans (p q r : point) :
  same_point p q -> same_point q r -> same_point p r.
Proof. intros [A B] [C D]. split; [rewrite A | rewrite B]; assumption. Qed.

Lemma same_point_sym (p q : point) : same_point p q -> same_point q p.
Proof. intros [A B]. split; symmetry; assumption. Qed.

Lemma m_apply_same (m : matrix) (p q : point) :
  same_point p q -> same_point (m_apply m p) (m_apply m q).
Proof.
  intros [A B]. unfold m_apply. split; cbn [fst snd]; rewrite A, B; reflexivity.
Qed.

Lemma m_apply_identity (p : point) : same_point (m_apply identity p) p.
Proof. unfold m_apply, identity. split; cbn [fst snd m_a m_b m_c m_d m_e m_f]; ring. Qed.

Lemma or_num_nullish (a : option Q) : or_num a 0 == nullish_num a 0.
Proof.
  destruct a as [v | ]; [ | reflexivity]. unfold or_num, nullish_num, truthy_num.
  destruct (Qeq_bool v 0) eqn:E; [ | reflexivity].
  apply Qeq_bool_iff in E. symmetry. exact E.
Qed.

Section ViewAgreement.
Context `{HostMath}.

Lemma svg_act_same (o : svg_op) (p q : point) :
  same_point p q -> same_point (svg_act o p) (svg_act o q).
Proof.
  intros [A B]. destruct o; unfold svg_act; split; cbn [fst snd];
    rewrite ?A, ?B; reflexivity.
Qed.

Lemma svg_act_all_same (ops : list svg_op) (p q : point) :
  same_point p q -> same_point (svg_act_all ops p) (svg_act_all ops q).
Proof.
  intro E. induction ops as [ | o ops IH]; [exact E | ].
  simpl. apply svg_act_same. exact IH.
Qed.

(** A transform appended to a matrix acts on the point first. *)
Lemma svg_apply_act (m : matrix) (o : svg_op) (p : point) :
  same_point (m_apply (svg_apply m o) p) (m_apply m (svg_act o p)).
Proof.
  destruct o; unfold svg_apply, svg_act, m_apply, m_translate, m_rotate, m_scale;
    split; cbn [fst snd m_a m_b m_c m_d m_e m_f]; ring.
Qed.

Lemma svg_matrix_from_act (ops : list svg_op) : forall (m : matrix) (p : point),
  same_point (m_apply (svg_matrix_from m ops) p) (m_apply m (svg_act_all ops p)).
Proof.
  induction ops as [ | o ops IH]; intros m p; [apply same_point_refl | ].
  unfold svg_matrix_from in *. simpl.
  eapply same_point_trans; [apply IH | apply svg_apply_act].
Qed.

Lemma svg_matrix_act (ops : list svg_op) (p : point) :
  same_point (m_apply (svg_matrix ops) p) (svg_act_all ops p).
Proof.
  eapply same_point_trans; [apply svg_matrix_from_act | apply m_apply_identity].
Qed.

(** The compositor's image matrix is the template-native frame followed
    by the first four transforms of the editor. *)
Lemma image_matrix_as_svg (model : PhoneModel) (d : DesignState) :
  image_matrix model d =
  svg_matrix_from (native_frame model)
    [svg_translate (centre_x model) (centre_y model);
     svg_translate (x d) (y d);
     svg_rotate (rotation d);
     svg_scale (scale d)].
Proof. reflexivity. Qed.

Lemma centerX_centre_x (model : PhoneModel) : centerX model == centre_x model.
Proof. unfold centerX, centre_x. rewrite or_num_nullish. reflexivity. Qed.

Lemma centerY_centre_y (model : PhoneModel) : centerY model == centre_y model.
Proof. unfold centerY, centre_y. rewrite or_num_nullish. reflexivity. Qed.

(** X1.  The print file reproduces the editor's view of the image.  When
    the design records the natural size [w x h] of its image (both
    non-zero), every point [(u, v)] of the image is painted by the
    compositor exactly where the editor's transform puts it, seen through
    the template-native frame (scaling by 2.5 after moving [(minX, minY)]
    to the origin). *)
Theorem print_matches_editor_image
        (model : PhoneModel) (d : DesignState) (w h : Q) :
  imgWidth d = Some w -> ~ w == 0 ->
  imgHeight d = Some h -> ~ h == 0 ->
  exists pf M cl above,
    generatePrintFile true (Some (w, h)) model d = Resolved pf /\
    paints (run (calls pf)) = painted_image M cl w h (- w / 2) (- h / 2) :: above /\
    forall u v,
      same_point
        (m_apply M (- w / 2 + u, - h / 2 + v))
        (m_apply (native_frame model)
                 (m_apply (svg_matrix (editor_image_transform model d)) (u, v))).
Proof.
  intros Hw Hw0 Hh Hh0.
  eexists. exists (image_matrix model d), (outline_clip model). eexists.
  split; [reflexivity | ]. cbn [calls]. rewrite onload_paints. unfold composite.
  split; [reflexivity | ]. intros u v.
  rewrite image_matrix_as_svg.
  eapply same_point_trans; [apply svg_matrix_from_act | ].
  apply m_apply_same. apply same_point_sym.
  eapply same_point_trans; [apply svg_matrix_act | ].
  unfold editor_image_transform, imgW, imgH. rewrite Hw, Hh.
  unfold or_num. rewrite (truthy_num_true _ Hw0), (truthy_num_true _ Hh0).
  pose proof (centerX_centre_x model) as Ex.
  pose proof (centerY_centre_y model) as Ey.
  unfold svg_act_all, fold_right, svg_act. cbn [fst snd].
  unfold same_point. cbn [fst snd]. split; rewrite ?Ex, ?Ey; field.
Qed.


Lemma text_layer_calls (model : PhoneModel) (d : DesignState)
      (l1 l2 : list TextElement) (t : TextElement) :
  textElements d = Some (l1 ++ t :: l2) ->
  text_layer model d =
  ([save; clip (svgPath model)]
     ++ flat_map (text_calls (centre_x model) (centre_y model)) l1)
    ++ text_calls (centre_x model) (centre_y model) t
    ++ (flat_map (text_calls (centre_x model) (centre_y model)) l2 ++ [restore]).
Proof.
  intro E. unfold text_layer. rewrite E.
  destruct (l1 ++ t :: l2) as [ | t0 ts] eqn:El.
  - destruct l1; discriminate El.
  - rewrite <- El. fold (centre_x model) (centre_y model).
    rewrite flat_map_app. cbn [flat_map]. rewrite <- !app_assoc. reflexivity.
Qed.

(** X2.  The print file reproduces the editor's view of every text.  For
    each text of the design, the compositor issues one block of calls that
    sets the font to weight 600, the editor's font size
    ([fontSize * scale]) and family, the fill to the editor's fill (the
    text's colour, or [#1e293b] when it has none), centres the text on
    both axes and paints it at the origin; the matrix of that paint is the
    editor's transform of the text seen through the template-native
    frame. *)
Theorem print_matches_editor_text
        (model : PhoneModel) (d : DesignState) (w h : Q) (t : TextElement) :
  In t (texts_of d) ->
  let shown := editor_text_of model t in
  exists pf M cl before after tx ty a,
    generatePrintFile true (Some (w, h)) model d = Resolved pf /\
    calls pf =
      before ++
      [save; translate tx ty; rotate a;
       set_font [Txt "600 "; interp (et_fontSize shown); Txt "px ";
                 Txt (et_fontFamily shown)];
       set_fillStyle (et_fill shown);
       set_textAlign "center"; set_textBaseline "middle";
       fillText (et_content shown) 0 0;
       restore] ++ after /\
    In (painted_text M cl (et_content shown) 0 0) (paints (run (calls pf))) /\
    forall p,
      same_point
        (m_apply M p)
        (m_apply (native_frame model) (m_apply (svg_matrix (et_transform shown)) p)).
Proof.
  intros Hin shown.
  assert (Hts : exists l1 l2, textElements d = Some (l1 ++ t :: l2)).
  { unfold texts_of in Hin. destruct (textElements d) as [ts | ]; [ | contradiction].
    destruct (in_split _ _ Hin) as (l1 & l2 & ->). exists l1, l2. reflexivity. }
  destruct Hts as (l1 & l2 & Hts).
  subst shown. unfold editor_text_of.
  cbn [et_fontSize et_fontFamily et_fill et_content et_transform].
  eexists.
  exists (m_rotate
            (m_translate (native_frame model)
                         (centre_x model + text_x t) (centre_y model + text_y t))
            ((text_rotation t * Math_PI) / 180)).
  exists (outline_clip model).
  exists (([scale_by scaleFactor scaleFactor;
            translate (- nullish_num (minX model) 0) (- nullish_num (minY model) 0);
            save; clip (svgPath model)]
             ++ image_layer model d w h ++ [restore])
            ++ [save; clip (svgPath model)]
            ++ flat_map (text_calls (centre_x model) (centre_y model)) l1).
  exists (flat_map (text_calls (centre_x model) (centre_y model)) l2 ++ [restore]).
  exists (centre_x model + text_x t), (centre_y model + text_y t),
    ((text_rotation t * Math_PI) / 180).
  split; [reflexivity | ]. cbn [calls]. split; [ | split].
  - unfold onload_calls. rewrite (text_layer_calls model d l1 l2 t Hts).
    rewrite <- !app_assoc. reflexivity.
  - rewrite onload_paints. unfold composite. right.
    change (painted_text _ _ _ 0 0) with (text_paint model t).
    apply in_map. exact Hin.
  - intro p.
    change (m_rotate _ _) with
      (svg_matrix_from (native_frame model)
         [svg_translate (centre_x model + text_x t) (centre_y model + text_y t);
          svg_rotate (text_rotation t)]).
    eapply same_point_trans; [apply svg_matrix_from_act | ].
    apply m_apply_same. apply same_point_sym.
    eapply same_point_trans; [apply svg_matrix_act | ].
    pose proof (centerX_centre_x model) as Ex.
    pose proof (centerY_centre_y model) as Ey.
    unfold svg_act_all, fold_right, svg_act, same_point.
    cbn [fst snd]. split; rewrite ?Ex, ?Ey; reflexivity.
Qed.

(** X3.  After "centre" the image is painted with its centre on the
    centre of the case, whatever its scale and rotation; the action
    changes nothing but the offset, and repeating it changes nothing. *)
Theorem centred_image_is_painted_at_case_centre
        (model : PhoneModel) (d : DesignState) (w h : Q) :
  exists pf img above c,
    generatePrintFile true (Some (w, h)) model (handleCenter d) = Resolved pf /\
    paints (run (calls pf)) = img :: above /\
    image_centre img = Some c /\
    same_point (to_native model c)
               (nullish_num (minX model) 0 + width model / 2,
                nullish_num (minY model) 0 + height model / 2) /\
    handleCenter d = with_offset d 0 0 /\
    scale (handleCenter d) = scale d /\
    rotation (handleCenter d) = rotation d /\
    textElements (handleCenter d) = textElements d /\
    handleCenter (handleCenter d) = handleCenter d.
Proof.
  eexists. do 3 eexists. split; [reflexivity | ]. cbn [calls].
  rewrite onload_paints. unfold composite.
  split; [reflexivity | ]. split; [reflexivity | ].
  split; [ | repeat split].
  destruct (image_centre_native model (handleCenter d) w h) as [Ex Ey].
  split; cbn [fst snd]; [rewrite Ex | rewrite Ey];
    unfold centre_x, centre_y, handleCenter, with_offset; cbn [x y]; ring.
Qed.

End ViewAgreement.


(* ----------------------------------------------------------------- *)
(** ** The editor: fitting, panning, text handling *)

Lemma Qeq_bool_false (a b : Q) : ~ a == b -> Qeq_bool a b = false.
Proof.
  intro Hn. destruct (Qeq_bool a b) eqn:E; [ | reflexivity].
  apply Qeq_bool_iff in E. contradiction.
Qed.

(** X4.  The editor shows the whole case inside 85% of its container:
    for a model of positive size and a container of non-zero height, the
    case scaled by [editorScale] is at most 85% of the container's width
    and at most 85% of its height, and it reaches one of the two. *)
Theorem editor_scale_fits_the_case (model : PhoneModel) (ed : Editor) :
  ~ container_height ed == 0 -> 0 < width model -> 0 < height model ->
  width model * editorScale model ed <= 0.85 * container_width ed /\
  height model * editorScale model ed <= 0.85 * container_height ed /\
  (width model * editorScale model ed == 0.85 * container_width ed \/
   height model * editorScale model ed == 0.85 * container_height ed).
Proof.
  intros Hc Hw Hh. unfold editorScale.
  rewrite (Qeq_bool_false _ _ Hc).
  assert (Hh0 : ~ height model == 0) by (intro E; rewrite E in Hh; discriminate Hh).
  assert (Hw0 : ~ width model == 0) by (intro E; rewrite E in Hw; discriminate Hw).
  rewrite (Qeq_bool_false _ _ Hh0). cbn [orb]. unfold Math_min.
  set (a := container_height ed * 0.85 / height model).
  set (b := container_width ed * 0.85 / width model).
  assert (Ea : height model * a == 0.85 * container_height ed)
    by (unfold a; field; exact Hh0).
  assert (Eb : width model * b == 0.85 * container_width ed)
    by (unfold b; field; exact Hw0).
  split; [ | split].
  - rewrite <- Eb. apply Qmult_le_l; [exact Hw | apply Q.le_min_r].
  - rewrite <- Ea. apply Qmult_le_l; [exact Hh | apply Q.le_min_l].
  - destruct (Q.min_spec a b) as [[_ E] | [_ E]]; rewrite E; [right | left];
      assumption.
Qed.

Section PanProperties.
Context `{HostMath}.
Variable model : PhoneModel.

(** X5.  One-finger panning follows the finger.  After a touch starts on
    a loaded image, a move of that finger shifts the image so that its
    displacement on screen ([editorScale] times the change of offset)
    equals the finger's displacement since the start; the scale, the
    rotation and the texts are untouched, and the position after several
    moves depends on the last one only. *)
Theorem touch_pan_follows_the_finger (ed : Editor) (t0 t1 t2 : Touch) :
  truthy_opt_str (imageSrc (design ed)) = true ->
  ~ editorScale model ed == 0 ->
  let started := handleTouchStart [t0] ed in
  let moved := handleTouchMove model [t1] started in
  editorScale model ed * (x (design moved) - x (design ed))
    == clientX t1 - clientX t0 /\
  editorScale model ed * (y (design moved) - y (design ed))
    == clientY t1 - clientY t0 /\
  design moved = with_offset (design ed) (x (design moved)) (y (design moved)) /\
  design (handleTouchMove model [t2] moved)
  = design (handleTouchMove model [t2] started).
Proof.
  intros Himg Hes started moved.
  assert (Es : started =
               mkEditor (design ed) (container_width ed) (container_height ed) true
                        (Some (mkDragStart (clientX t0) (clientY t0)
                                           (x (design ed)) (y (design ed))))
                        (startDistance ed) (initialScale ed)).
  { unfold started, handleTouchStart. rewrite Himg. reflexivity. }
  subst moved. rewrite Es. clear Es started.
  unfold handleTouchMove.
  destruct (startDistance ed);
    cbn [startDistance isDragging dragStartRef design onDesignChange with_offset
         drag_x drag_y initialDesignX initialDesignY x y];
    repeat match goal with
           | |- context [editorScale model ?e] =>
               lazymatch e with
               | ed => fail
               | _ => change (editorScale model e) with (editorScale model ed)
               end
           end;
    (split; [field; exact Hes | split; [field; exact Hes | split; reflexivity]]).
Qed.

End PanProperties.


(** X6.  The mouse moves the image only during an image drag.  While a
    text is selected or dragged, pressing the mouse on the image starts
    nothing; while the image listeners are off, no window event changes
    the scale, offset or rotation of the image; and a mouse-up during an
    image drag turns the listeners off. *)
Theorem image_moves_only_while_dragged
        (model : PhoneModel) (ui : EditorUI) (e : MouseEvent) (ev : window_event) :
  (truthy_opt_str (draggedTextId ui) || truthy_opt_str (selectedTextId ui) = true ->
   handleMouseDown e ui = (ui, false)) /\
  (image_listeners ui = false ->
   let d' := design (core (window_dispatch model ui ev)) in
   scale d' = scale (design (core ui)) /\ x d' = x (design (core ui)) /\
   y d' = y (design (core ui)) /\ rotation d' = rotation (design (core ui))) /\
  (image_listeners ui = true ->
   image_listeners (window_dispatch model ui mouseup) = false).
Proof.
  split; [ | split].
  - intro Hsel. unfold handleMouseDown. rewrite Hsel. reflexivity.
  - intro Hoff. unfold window_dispatch. rewrite Hoff.
    destruct (text_listeners ui); [ | repeat split].
    destruct ev as [e' | ]; [ | repeat split].
    unfold handleTextMouseMove.
    destruct (draggedTextId ui) as [dragged | ]; [ | repeat split].
    destruct (textDragStartRef ui) as [ts | ]; [ | repeat split].
    destruct (negb (truthy_str dragged)); repeat split.
  - intro Hon. unfold window_dispatch. rewrite Hon.
    unfold image_listeners in Hon. apply andb_true_iff in Hon.
    destruct Hon as [_ Hnd]. apply negb_true_iff in Hnd.
    unfold text_listeners. rewrite Hnd. reflexivity.
Qed.

(** X7.  Dragging the image with the mouse follows the pointer.  After
    the mouse is pressed on a loaded image (no text selected or dragged,
    not on a text), a move shifts the image so that its displacement on
    screen equals the pointer's displacement since the press, leaving
    scale, rotation and texts as they were. *)
Theorem mouse_pan_follows_the_pointer
        (model : PhoneModel) (ui : EditorUI) (e0 e1 : MouseEvent) :
  truthy_opt_str (draggedTextId ui) = false ->
  truthy_opt_str (selectedTextId ui) = false ->
  target_in_text e0 = false ->
  truthy_opt_str (imageSrc (design (core ui))) = true ->
  ~ editorScale model (core ui) == 0 ->
  let pressed := fst (handleMouseDown e0 ui) in
  let moved := design (core (window_dispatch model pressed (mousemove e1))) in
  editorScale model (core ui) * (x moved - x (design (core ui)))
    == mouse_clientX e1 - mouse_clientX e0 /\
  editorScale model (core ui) * (y moved - y (design (core ui)))
    == mouse_clientY e1 - mouse_clientY e0 /\
  moved = with_offset (design (core ui)) (x moved) (y moved).
Proof.
  intros Hd Hs Ht Himg Hes pressed moved.
  assert (Ep : pressed =
               set_core ui
                 (set_drag (core ui) true
                    (Some (mkDragStart (mouse_clientX e0) (mouse_clientY e0)
                                       (x (design (core ui))) (y (design (core ui))))))).
  { unfold pressed, handleMouseDown. rewrite Hd, Hs, Ht, Himg. reflexivity. }
  subst moved. rewrite Ep. clear Ep pressed.
  unfold window_dispatch, image_listeners, text_listeners, handleWindowMouseMove.
  cbn [core set_core set_drag isDragging dragStartRef draggedTextId design].
  rewrite Hd.
  cbn [andb negb core set_core set_drag isDragging dragStartRef draggedTextId
       design onDesignChange with_offset x y drag_x drag_y
       initialDesignX initialDesignY].
  repeat match goal with
         | |- context [editorScale model ?e] =>
             lazymatch e with
             | core ui => fail
             | _ => change (editorScale model e) with (editorScale model (core ui))
             end
         end.
  split; [field; exact Hes | split; [field; exact Hes | reflexivity]].
Qed.

(* ----------------------------------------------------------------- *)
(** ** Texts in the editor *)

Lemma map_text_updated (textId : string) (f : TextElement -> TextElement)
      (changed : TextElement -> TextElement -> Prop) (ts : list TextElement) :
  (forall t, text_id (f t) = text_id t) ->
  (forall t, changed t (f t)) ->
  Forall2 (text_updated textId changed) ts
          (map (fun t => if text_id t =? textId then f t else t) ts).
Proof.
  intros Hid Hch. induction ts as [ | t ts IH]; [constructor | ].
  simpl. constructor; [ | exact IH].
  destruct (text_id t =? textId) eqn:E.
  - apply String.eqb_eq in E. repeat split; auto. intro Hn. contradiction.
  - apply String.eqb_neq in E. repeat split; auto. intro Hn. contradiction.
Qed.

(** X8.  The wheel over a text rescales that text only, within
    [[0.1, 5]].  When the design has a text with the given identifier,
    every text keeps its place and identifier, the texts with another
    identifier are untouched, the texts with that identifier get a scale
    in [[0.1, 5]] and change in nothing else, and the image is untouched;
    when no text has that identifier nothing changes. *)
Theorem text_wheel_rescales_one_text
        (e : WheelEvent) (textId : string) (ed : Editor) :
  (find_text (design ed) textId = None -> handleTextWheel e textId ed = ed) /\
  (forall t0, find_text (design ed) textId = Some t0 ->
     let d' := design (handleTextWheel e textId ed) in
     Forall2 (text_updated textId
                (fun t t' => 0.1 <= text_scale t' /\ text_scale t' <= 5 /\
                             t' = text_with_scale t (text_scale t')))
             (texts_of (design ed)) (texts_of d') /\
     scale d' = scale (design ed) /\ x d' = x (design ed) /\
     y d' = y (design ed) /\ rotation d' = rotation (design ed) /\
     imageSrc d' = imageSrc (design ed)).
Proof.
  unfold handleTextWheel. split.
  - intros ->. reflexivity.
  - intros t0 ->. cbn zeta.
    set (s := Math_max 0.1 (Math_min 5 _)).
    assert (Hs : 0.1 <= s /\ s <= 5).
    { unfold s, Math_max, Math_min. split;
        [apply Q.le_max_l | apply Q.max_lub; [discriminate | apply Q.le_min_l]]. }
    cbn [design onDesignChange]. split; [ | repeat split].
    unfold texts_of, with_texts, map_text. cbn [textElements].
    destruct (textElements (design ed)) as [ts | ] eqn:Ets.
    + cbn [option_map]. apply map_text_updated; [reflexivity | ].
      intro t. cbn [text_with_scale text_scale]. destruct Hs. repeat split; assumption.
    + constructor.
Qed.


(** X9.  Dragging a text moves that text only and follows the pointer.
    After the mouse is pressed on a text of the design, the text is
    selected and no image drag is in progress; a move then puts every
    text with that identifier where the first of them was at the press,
    shifted so that its displacement on screen equals the pointer's
    displacement, changes no other text and leaves the image as it was.
    Pressed on an identifier that no text has, the handler changes no
    part of the design. *)
Theorem text_drag_moves_one_text
        (model : PhoneModel) (ui : EditorUI) (textId : string) (e0 e1 : MouseEvent) :
  (find_text (design (core ui)) textId = None ->
   design (core (handleTextMouseDown e0 textId ui)) = design (core ui)) /\
  (forall t0,
     find_text (design (core ui)) textId = Some t0 ->
     textId <> "" ->
     ~ editorScale model (core ui) == 0 ->
     let pressed := handleTextMouseDown e0 textId ui in
     let d' := design (core (window_dispatch model pressed (mousemove e1))) in
     selectedTextId pressed = Some textId /\
     image_listeners pressed = false /\
     Forall2 (text_updated textId
                (fun t t' =>
                   t' = text_with_offset t (text_x t') (text_y t') /\
                   editorScale model (core ui) * (text_x t' - text_x t0)
                     == mouse_clientX e1 - mouse_clientX e0 /\
                   editorScale model (core ui) * (text_y t' - text_y t0)
                     == mouse_clientY e1 - mouse_clientY e0))
             (texts_of (design (core ui))) (texts_of d') /\
     scale d' = scale (design (core ui)) /\ x d' = x (design (core ui)) /\
     y d' = y (design (core ui)) /\ rotation d' = rotation (design (core ui)) /\
     imageSrc d' = imageSrc (design (core ui))).
Proof.
  split.
  - intro Hf. unfold handleTextMouseDown. cbn [set_drag design]. rewrite Hf.
    reflexivity.
  - intros t0 Hf Hid Hes pressed d'.
    assert (Ep : pressed =
                 mkEditorUI (set_drag (core ui) false None) (Some textId)
                            (Some (mkTextDragStart (mouse_clientX e0) (mouse_clientY e0)
                                                   (text_x t0) (text_y t0)))
                            (Some textId)).
    { unfold pressed, handleTextMouseDown. cbn [set_drag design]. rewrite Hf.
      reflexivity. }
    subst d'. rewrite Ep. clear Ep pressed.
    split; [reflexivity | ]. split; [reflexivity | ].
    unfold window_dispatch, image_listeners, text_listeners, handleTextMouseMove.
    cbn [core set_drag isDragging draggedTextId textDragStartRef andb truthy_opt_str].
    rewrite (truthy_str_true _ Hid). cbn [negb].
    cbn [core set_core set_drag design onDesignChange tdrag_x tdrag_y initialX initialY].
    repeat match goal with
           | |- context [editorScale model ?e] =>
               lazymatch e with
               | core ui => fail
               | _ => change (editorScale model e) with (editorScale model (core ui))
               end
           end.
    split; [ | repeat split].
    unfold texts_of, with_texts, map_text. cbn [textElements].
    destruct (textElements (design (core ui))) as [ts | ]; [ | constructor].
    cbn [option_map]. apply map_text_updated; [reflexivity | ].
    intro t. cbn [text_with_offset text_x text_y].
    split; [reflexivity | split; field; exact Hes].
Qed.


(* ----------------------------------------------------------------- *)
(** ** The rotation handle *)

Lemma Qgt_bool_false (a b : Q) : Qgt_bool a b = false <-> a <= b.
Proof.
  unfold Qgt_bool. rewrite negb_false_iff. apply Qle_bool_iff.
Qed.

Lemma turns_bound (q : Q) :
  q <= 360 * inject_Z (Z.of_nat (Z.to_nat (Qceiling (q / 360)))).
Proof.
  assert (E : q == 360 * (q / 360)) by field.
  rewrite E at 1. apply Qmult_le_l; [reflexivity | ].
  apply Qle_trans with (inject_Z (Qceiling (q / 360))); [apply Qle_ceiling | ].
  rewrite <- Zle_Qle. destruct (Qceiling (q / 360)); simpl; lia.
Qed.

Lemma inject_succ (n : nat) : inject_Z (Z.of_nat (S n)) == inject_Z (Z.of_nat n) + 1.
Proof. rewrite Nat2Z.inj_succ. unfold Z.succ. rewrite inject_Z_plus. reflexivity. Qed.

(** The first loop ends at most 180, having taken off whole turns, and
    does not go below -180 unless it started there. *)
Lemma while_above_180_spec (fuel : nat) : forall a,
  a - 180 <= 360 * inject_Z (Z.of_nat fuel) ->
  let r := while_above_180 fuel a in
  r <= 180 /\ (exists k : Z, r == a + 360 * inject_Z k) /\
  (- 180 <= a -> - 180 <= r).
Proof.
  induction fuel as [ | fuel IH]; intros a Hf; cbn zeta in *; cbn [while_above_180].
  - change (inject_Z (Z.of_nat 0)) with 0 in Hf.
    split; [lra | split; [ | auto]]. exists 0%Z. change (inject_Z 0) with 0. ring.
  - destruct (Qgt_bool a 180) eqn:E.
    + apply Qgt_bool_true in E. rewrite inject_succ in Hf.
      assert (Hf' : a - 360 - 180 <= 360 * inject_Z (Z.of_nat fuel)) by lra.
      destruct (IH (a - 360) Hf') as (H1 & (k & Hk) & H4).
      split; [exact H1 | split].
      * exists (k - 1)%Z. rewrite Hk. unfold Z.sub.
        rewrite inject_Z_plus, inject_Z_opp. change (inject_Z 1) with 1. ring.
      * intros _. apply H4. lra.
    + apply Qgt_bool_false in E.
      split; [exact E | split; [ | auto]].
      exists 0%Z. change (inject_Z 0) with 0. ring.
Qed.

Lemma while_below_minus_180_spec (fuel : nat) : forall a,
  - 180 - a <= 360 * inject_Z (Z.of_nat fuel) ->
  let r := while_below_minus_180 fuel a in
  - 180 <= r /\ (exists k : Z, r == a + 360 * inject_Z k) /\
  (a <= 180 -> r <= 180).
Proof.
  induction fuel as [ | fuel IH]; intros a Hf; cbn zeta in *; cbn [while_below_minus_180].
  - change (inject_Z (Z.of_nat 0)) with 0 in Hf.
    split; [lra | split; [ | auto]]. exists 0%Z. change (inject_Z 0) with 0. ring.
  - destruct (Qgt_bool (-180) a) eqn:E.
    + apply Qgt_bool_true in E. rewrite inject_succ in Hf.
      assert (Hf' : - 180 - (a + 360) <= 360 * inject_Z (Z.of_nat fuel)) by lra.
      destruct (IH (a + 360) Hf') as (H1 & (k & Hk) & H3).
      split; [exact H1 | split].
      * exists (k + 1)%Z. rewrite Hk.
        rewrite inject_Z_plus. change (inject_Z 1) with 1. ring.
      * intros _. apply H3. lra.
    + apply Qgt_bool_false in E.
      split; [exact E | split; [ | auto]].
      exists 0%Z. change (inject_Z 0) with 0. ring.
Qed.

(** Both loops end, and give the angle in [[-180, 180]] that differs
    from the input by whole turns. *)
Lemma normalize_angle_spec (a : Q) :
  - 180 <= normalize_angle a /\ normalize_angle a <= 180 /\
  exists k : Z, normalize_angle a == a + 360 * inject_Z k.
Proof.
  unfold normalize_angle.
  destruct (while_above_180_spec (turns_above a) a (turns_bound _))
    as (H1 & (k1 & Hk1) & _).
  set (a1 := while_above_180 (turns_above a) a) in *.
  destruct (while_below_minus_180_spec (turns_below a1) a1 (turns_bound _))
    as (H2 & (k2 & Hk2) & H3).
  split; [exact H2 | split; [exact (H3 H1) | ]].
  exists (k1 + k2)%Z. rewrite Hk2, Hk1, inject_Z_plus. ring.
Qed.

(** The remainder of a non-negative number by 360. *)
Lemma js_rem_360 (a : Q) :
  0 <= a ->
  0 <= js_rem a 360 /\ js_rem a 360 < 360 /\
  exists k : Z, js_rem a 360 == a + 360 * inject_Z k.
Proof.
  intro Ha. unfold js_rem, Qtruncate.
  assert (Hq : 0 <= a / 360) by (apply Qle_shift_div_l; [reflexivity | lra]).
  apply Qle_bool_iff in Hq. rewrite Hq.
  pose proof (Qfloor_le (a / 360)) as Hlo.
  pose proof (Qlt_floor (a / 360)) as Hhi.
  rewrite inject_Z_plus in Hhi. change (inject_Z 1) with 1 in Hhi.
  assert (Hd : a == 360 * (a / 360)) by field.
  remember (a / 360) as q eqn:Eq. clear Eq.
  remember (inject_Z (Qfloor q)) as f eqn:Ef.
  split; [lra | split; [lra | ]].
  exists (- Qfloor q)%Z. rewrite inject_Z_opp, <- Ef. ring.
Qed.


Section RotationProperties.
Context `{HostMath}.
Variable Math_atan2 : Q -> Q -> Q.

(** X10.  Turning a text by its handle.  For a text whose rotation at
    the press is at least -180, every move of the pointer gives the texts
    with that identifier a rotation in [[0, 360)] that equals the rotation
    at the press plus the angle swept by the pointer since the press, up
    to whole turns; nothing else of those texts changes, the other texts
    and the image are untouched.  Both normalising loops end. *)
Theorem rotation_handle_turns_one_text (rd : RotateDrag) (e : MouseEvent) :
  - 180 <= startRotation rd ->
  let d' := handleRotateMove Math_atan2 rd e in
  let swept :=
    getAngle Math_atan2 (rd_centerScreenX rd) (rd_centerScreenY rd)
             (mouse_clientX e) (mouse_clientY e) - initialAngle rd in
  Forall2 (text_updated (rd_textId rd)
             (fun t t' =>
                0 <= text_rotation t' /\ text_rotation t' < 360 /\
                (exists k : Z,
                    text_rotation t' == startRotation rd + swept + 360 * inject_Z k) /\
                t' = text_with_rotation t (text_rotation t')))
          (texts_of (rd_design rd)) (texts_of d') /\
  scale d' = scale (rd_design rd) /\ x d' = x (rd_design rd) /\
  y d' = y (rd_design rd) /\ rotation d' = rotation (rd_design rd) /\
  imageSrc d' = imageSrc (rd_design rd).
Proof.
  intros Hstart d' swept. subst d'. unfold handleRotateMove. fold swept.
  destruct (normalize_angle_spec swept) as (Hlo & Hhi & k1 & Hk1).
  set (nd := normalize_angle swept) in *.
  assert (Hpos : 0 <= startRotation rd + nd + 360) by lra.
  destruct (js_rem_360 _ Hpos) as (R0 & R1 & k2 & Hk2).
  set (r := js_rem (startRotation rd + nd + 360) 360) in *.
  split; [ | repeat split].
  unfold texts_of, with_texts, map_text. cbn [textElements].
  destruct (textElements (rd_design rd)) as [ts | ]; [ | constructor].
  cbn [option_map]. apply map_text_updated; [reflexivity | ].
  intro t. cbn [text_with_rotation text_rotation].
  split; [exact R0 | split; [exact R1 | split; [ | reflexivity]]].
  exists (k1 + 1 + k2)%Z. rewrite Hk2, Hk1, !inject_Z_plus.
  change (inject_Z 1) with 1. ring.
Qed.

End RotationProperties.


(* ----------------------------------------------------------------- *)
(** ** Adding, deleting and colouring texts *)

Lemma to_native_same (model : PhoneModel) (p q : point) :
  same_point p q -> same_point (to_native model p) (to_native model q).
Proof.
  intros [A B]. unfold to_native. split; cbn [fst snd]; rewrite ?A, ?B; reflexivity.
Qed.

Section TextProperties.
Context `{HostMath}.
Variable trim : string -> string.

(** The template-native coordinates undo the template-native frame. *)
Lemma to_native_frame (model : PhoneModel) (p : point) :
  same_point (to_native model (m_apply (native_frame model) p)) p.
Proof.
  unfold to_native, native_frame, m_apply, m_translate, m_scale, identity, scaleFactor.
  split; cbn [fst snd m_a m_b m_c m_d m_e m_f]; field.
Qed.

(** X11.  A text that is not blank, added while a model is selected,
    goes to the end of the design's texts with the trimmed input as
    content, the current font and colour, size 24 and no offset, scale
    change or rotation; it becomes the selected text and the input is
    cleared; the image and the other texts are untouched.  In the print
    file it is painted last, on top of the image and of every other text,
    anchored on the centre of the case.  A blank input, or no selected
    model, changes nothing. *)
Theorem added_text_is_painted_on_top
        (stamp : string) (model : PhoneModel) (tc : TextControls)
        (d : DesignState) (w h : Q) :
  (trim (textInput tc) = "" ->
   handleAddText trim stamp (Some model) tc d = (d, tc)) /\
  handleAddText trim stamp None tc d = (d, tc) /\
  (trim (textInput tc) <> "" ->
   let d' := fst (handleAddText trim stamp (Some model) tc d) in
   let newText :=
     {| text_id := stamp; text := trim (textInput tc);
        fontFamily := selectedFont tc;
        text_x := 0; text_y := 0; text_scale := 1; text_rotation := 0;
        fontSize := 24; color := textColor tc |} in
   texts_of d' = texts_of d ++ [newText] /\
   d' = with_texts d (textElements d') /\
   snd (handleAddText trim stamp (Some model) tc d)
   = mkTextControls "" (selectedFont tc) (textColor tc) (Some stamp) /\
   exists pf below M cl,
     generatePrintFile true (Some (w, h)) model d' = Resolved pf /\
     paints (run (calls pf)) = below ++ [painted_text M cl (trim (textInput tc)) 0 0] /\
     List.length below = S (List.length (texts_of d)) /\
     same_point (to_native model (m_apply M (0, 0)))
                (nullish_num (minX model) 0 + width model / 2,
                 nullish_num (minY model) 0 + height model / 2)).
Proof.
  split; [ | split].
  - intro E. unfold handleAddText. rewrite E. reflexivity.
  - unfold handleAddText. destruct (negb (truthy_str (trim (textInput tc)))); reflexivity.
  - intros Hne d' newText.
    assert (Ed : handleAddText trim stamp (Some model) tc d =
                 (with_texts d (Some (texts_or_empty d ++ [newText])),
                  mkTextControls "" (selectedFont tc) (textColor tc) (Some stamp))).
    { unfold handleAddText. rewrite (truthy_str_true _ Hne). reflexivity. }
    subst d'. rewrite Ed. cbn [fst snd].
    split; [reflexivity | split; [reflexivity | split; [reflexivity | ]]].
    eexists. exists (painted_image (image_matrix model d) (outline_clip model) w h (- w / 2) (- h / 2)
              :: map (text_paint model) (texts_of d)).
    exists (m_rotate
              (m_translate (native_frame model)
                           (centre_x model + 0) (centre_y model + 0))
              ((0 * Math_PI) / 180)).
    exists (outline_clip model).
    split; [reflexivity | ]. cbn [calls]. rewrite onload_paints.
    split; [ | split].
    + unfold composite.
      change (image_matrix model (with_texts d _)) with (image_matrix model d).
      change (texts_of (with_texts d (Some (texts_or_empty d ++ [newText]))))
        with (texts_of d ++ [newText]).
      rewrite map_app. reflexivity.
    + cbn [List.length]. rewrite length_map. reflexivity.
    + change (m_rotate _ _) with
        (svg_matrix_from (native_frame model)
           [svg_translate (centre_x model + 0) (centre_y model + 0); svg_rotate 0]).
      eapply same_point_trans;
        [apply to_native_same, svg_matrix_from_act | ].
      eapply same_point_trans; [apply to_native_frame | ].
      unfold svg_act_all, fold_right, svg_act, same_point, centre_x, centre_y.
      cbn [fst snd]. split; ring.
Qed.

End TextProperties.


Lemma filter_all (A : Type) (f : A -> bool) (l : list A) :
  (forall a, In a l -> f a = true) -> filter f l = l.
Proof.
  induction l as [ | a l IH]; intro Hall; [reflexivity | ].
  simpl. rewrite (Hall a (or_introl eq_refl)). f_equal.
  apply IH. intros b Hb. apply Hall. right. exact Hb.
Qed.

(** X12.  The delete button of a text removes the texts with that
    identifier and no other: a text is in the design afterwards exactly
    when it was there before under another identifier, the remaining
    texts keep their order and the image is untouched.  Deleting a text
    that was just added under an identifier no other text has gives back
    the texts there were before. *)
Theorem delete_text_removes_one_identifier
        (trim : string -> string) (textId : string) (model : PhoneModel)
        (tc : TextControls) (d : DesignState) :
  (forall t, In t (texts_of (delete_text textId d)) <->
             In t (texts_of d) /\ text_id t <> textId) /\
  texts_of (delete_text textId d)
  = filter (fun t => negb (text_id t =? textId)) (texts_of d) /\
  delete_text textId d = with_texts d (textElements (delete_text textId d)) /\
  (trim (textInput tc) <> "" ->
   (forall t, In t (texts_of d) -> text_id t <> textId) ->
   texts_of (delete_text textId (fst (handleAddText trim textId (Some model) tc d)))
   = texts_of d).
Proof.
  assert (Hf : forall d0, texts_of (delete_text textId d0)
                          = filter (fun t => negb (text_id t =? textId)) (texts_of d0)).
  { intro d0. unfold delete_text, texts_of, with_texts. cbn [textElements].
    destruct (textElements d0); reflexivity. }
  split; [ | split; [apply Hf | split; [reflexivity | ]]].
  - intro t. rewrite Hf, filter_In, negb_true_iff, String.eqb_neq. reflexivity.
  - intros Hne Hfresh. rewrite Hf.
    unfold handleAddText. rewrite (truthy_str_true _ Hne). cbn [negb fst].
    change (texts_of (with_texts d (Some (texts_or_empty d ++ ?l))))
      with (texts_of d ++ l).
    rewrite filter_app. cbn [filter text_id]. rewrite String.eqb_refl. cbn [negb].
    rewrite app_nil_r. apply filter_all.
    intros t Hin. apply negb_true_iff, String.eqb_neq, Hfresh. exact Hin.
Qed.

(** X13.  Choosing a colour.  With a selected text, the texts with its
    identifier take the colour and nothing else changes, not even the
    colour kept for new texts.  With no selected text, every text takes
    the colour, which also becomes the colour for new texts: a text added
    next has it.  The image is untouched in each case, and so are the
    place, size and content of every text. *)
Theorem colour_goes_to_the_selected_text_or_to_all
        (trim : string -> string) (newColor : string)
        (tc : TextControls) (d : DesignState) :
  (forall sel, selected_id tc = Some sel -> textElements d <> None ->
     Forall2 (text_updated sel (fun t t' => t' = text_with_color t newColor))
             (texts_of d) (texts_of (fst (change_color newColor tc d))) /\
     snd (change_color newColor tc d) = tc) /\
  (selected_id tc = None ->
   texts_of (fst (change_color newColor tc d))
   = map (fun t => text_with_color t newColor) (texts_of d) /\
   snd (change_color newColor tc d) = with_textColor tc newColor /\
   forall stamp model,
     trim (textInput tc) <> "" ->
     exists added,
       texts_of (fst (handleAddText trim stamp (Some model)
                        (snd (change_color newColor tc d))
                        (fst (change_color newColor tc d))))
       = map (fun t => text_with_color t newColor) (texts_of d) ++ [added] /\
       color added = newColor) /\
  fst (change_color newColor tc d)
  = with_texts d (textElements (fst (change_color newColor tc d))).
Proof.
  split; [ | split].
  - intros sel Hsel Hts. unfold change_color. rewrite Hsel.
    destruct (textElements d) as [ts | ] eqn:Ets; [ | contradiction].
    cbn [fst snd]. split; [ | reflexivity].
    unfold texts_of, with_texts. cbn [textElements]. rewrite Ets.
    apply map_text_updated; reflexivity.
  - intro Hnone.
    assert (Hc : change_color newColor tc d =
                 (with_texts d (match textElements d with
                                | Some (t :: ts) =>
                                    Some (map (fun t => text_with_color t newColor) (t :: ts))
                                | other => other
                                end),
                  with_textColor tc newColor)).
    { unfold change_color. rewrite Hnone.
      destruct d as [s0 x0 y0 r0 src iw ih [[ | t ts] | ]]; reflexivity. }
    rewrite Hc. cbn [fst snd].
    assert (Ht : texts_of (with_texts d (match textElements d with
                                         | Some (t :: ts) =>
                                             Some (map (fun t => text_with_color t newColor)
                                                       (t :: ts))
                                         | other => other
                                         end))
                 = map (fun t => text_with_color t newColor) (texts_of d)).
    { unfold texts_of, with_texts. cbn [textElements].
      destruct (textElements d) as [[ | t ts] | ]; reflexivity. }
    split; [exact Ht | split; [reflexivity | ]].
    intros stamp model Hne. unfold handleAddText.
    cbn [textInput with_textColor selectedFont textColor].
    rewrite (truthy_str_true _ Hne). cbn [negb fst].
    eexists. split.
    + change (texts_of (with_texts ?d0 (Some (texts_or_empty ?d0 ++ ?l))))
        with (texts_of d0 ++ l).
      rewrite Ht. reflexivity.
    + reflexivity.
  - unfold change_color.
    destruct (selected_id tc); destruct d as [s0 x0 y0 r0 src iw ih [[ | t ts] | ]];
      reflexivity.
Qed.


(* ----------------------------------------------------------------- *)
(** ** Uploading an image *)

Lemma Qlt_bool_true (a b : Q) : Qlt_bool a b = true <-> a < b.
Proof. unfold Qlt_bool. apply Qgt_bool_true. Qed.

Lemma Qlt_bool_false (a b : Q) : Qlt_bool a b = false <-> b <= a.
Proof. unfold Qlt_bool. apply Qgt_bool_false. Qed.

(** X14.  An image smaller than 300 x 500 is refused: the design stays
    as it was and the resolution alert is shown.  An image of at least
    that size replaces the design altogether: whatever the design was, the
    new one has no offset, no rotation and no text. *)
Theorem upload_refuses_small_images_and_resets_the_design
        (model : PhoneModel) (result redrawn : string) (w h : Q)
        (prev other : DesignState) :
  (w < 300 \/ h < 500 ->
   image_uploaded model result redrawn w h prev = (prev, Some resolution_too_low)) /\
  (300 <= w -> 500 <= h ->
   let d' := fst (image_uploaded model result redrawn w h prev) in
   snd (image_uploaded model result redrawn w h prev) = None /\
   x d' = 0 /\ y d' = 0 /\ rotation d' = 0 /\ textElements d' = Some [] /\
   d' = fst (image_uploaded model result redrawn w h other)).
Proof.
  split.
  - intro Hsmall. unfold image_uploaded.
    assert (E : Qlt_bool w 300 || Qlt_bool h 500 = true).
    { apply orb_true_iff. destruct Hsmall as [Hs | Hs]; [left | right];
        apply Qlt_bool_true; exact Hs. }
    rewrite E. reflexivity.
  - intros Hw Hh. unfold image_uploaded.
    apply Qlt_bool_false in Hw. apply Qlt_bool_false in Hh. rewrite Hw, Hh.
    repeat split.
Qed.

(** X15.  Downscaling very large images.  For an image of positive size,
    the size it is kept at has the same aspect ratio and is never larger
    than the original; it is the original size when neither side exceeds
    2000, and otherwise its longer side is 1500. *)
Theorem optimized_size_keeps_the_aspect_ratio (w h : Q) :
  0 < w -> 0 < h ->
  let w' := fst (optimized_size w h) in
  let h' := snd (optimized_size w h) in
  w' * h == h' * w /\
  0 < w' /\ w' <= w /\ 0 < h' /\ h' <= h /\
  (w <= 2000 -> h <= 2000 -> w' = w /\ h' = h) /\
  (2000 < w \/ 2000 < h -> Qmax w' h' == 1500).
Proof.
  intros Hw Hh. unfold optimized_size.
  destruct (Qgt_bool w 2000) eqn:E1; destruct (Qgt_bool h 2000) eqn:E2;
    destruct (Qgt_bool w h) eqn:E3;
    destruct (Qgt_bool w 1500) eqn:E4; destruct (Qgt_bool h 1500) eqn:E5;
    rewrite ?Qgt_bool_true, ?Qgt_bool_false in *;
    cbn [orb fst snd]; try (exfalso; lra).
  all: try (assert (Hr : 1500 / w * w == 1500) by (field; lra);
            assert (Hr0 : 0 < 1500 / w)
              by (apply Qlt_shift_div_l; [exact Hw | lra])).
  all: try (assert (Hs : 1500 / h * h == 1500) by (field; lra);
            assert (Hs0 : 0 < 1500 / h)
              by (apply Qlt_shift_div_l; [exact Hh | lra])).
  all: repeat split; intros;
    try reflexivity; try lra; try nra;
    try (exfalso; lra);
    try (apply Q.max_l; nra); try (apply Q.max_r; nra);
    try (rewrite Q.max_l by nra; reflexivity);
    try (rewrite Q.max_r by nra; reflexivity).
Qed.


Lemma optimized_size_positive (w h : Q) :
  0 < w -> 0 < h -> 0 < fst (optimized_size w h) /\ 0 < snd (optimized_size w h).
Proof.
  intros Hw Hh. unfold optimized_size.
  assert (Hr0 : 0 < 1500 / w) by (apply Qlt_shift_div_l; [exact Hw | lra]).
  assert (Hs0 : 0 < 1500 / h) by (apply Qlt_shift_div_l; [exact Hh | lra]).
  destruct (Qgt_bool w 2000 || Qgt_bool h 2000); [ | split; assumption].
  destruct (Qgt_bool w h); [destruct (Qgt_bool w 1500) | destruct (Qgt_bool h 1500)];
    cbn [fst snd]; split; try assumption; try lra; nra.
Qed.

Lemma div_le_mult (a b c : Q) : 0 < b -> a / b <= c -> a <= c * b.
Proof.
  intros Hb Hle. assert (E : a == a / b * b) by (field; lra).
  rewrite E. apply Qmult_le_compat_r; [exact Hle | lra].
Qed.

(** X16.  A freshly uploaded image already covers the case.  For a model
    and an accepted image of positive size, the design after the upload
    records the size the image is kept at, its scale makes the image at
    least as wide and as high as the case, and "fit to case" leaves the
    design as it is. *)
Theorem uploaded_image_covers_the_case
        (model : PhoneModel) (result redrawn : string) (w h : Q) (prev : DesignState) :
  300 <= w -> 500 <= h -> 0 < width model -> 0 < height model ->
  let d' := fst (image_uploaded model result redrawn w h prev) in
  imgWidth d' = Some (fst (optimized_size w h)) /\
  imgHeight d' = Some (snd (optimized_size w h)) /\
  width model <= scale d' * fst (optimized_size w h) /\
  height model <= scale d' * snd (optimized_size w h) /\
  fit_to_case model d' = d'.
Proof.
  intros Hw Hh Hmw Hmh d'.
  assert (Hw0 : 0 < w) by lra. assert (Hh0 : 0 < h) by lra.
  destruct (optimized_size_positive w h Hw0 Hh0) as (Hfw & Hfh).
  assert (Ed : d' =
               {| scale := Math_max (width model / fst (optimized_size w h))
                                    (height model / snd (optimized_size w h));
                  x := 0; y := 0; rotation := 0;
                  imageSrc := Some (if Qgt_bool w 2000 || Qgt_bool h 2000
                                    then redrawn else result);
                  imgWidth := Some (fst (optimized_size w h));
                  imgHeight := Some (snd (optimized_size w h));
                  textElements := Some [] |}).
  { unfold d', image_uploaded.
    apply Qlt_bool_false in Hw. apply Qlt_bool_false in Hh. rewrite Hw, Hh.
    reflexivity. }
  rewrite Ed. cbn [imgWidth imgHeight scale].
  set (fw := fst (optimized_size w h)) in *.
  set (fh := snd (optimized_size w h)) in *.
  split; [reflexivity | split; [reflexivity | ]].
  assert (Hsx : width model / fw <= Math_max (width model / fw) (height model / fh))
    by apply Q.le_max_l.
  assert (Hsy : height model / fh <= Math_max (width model / fw) (height model / fh))
    by apply Q.le_max_r.
  split; [ | split].
  - apply div_le_mult; assumption.
  - apply div_le_mult; assumption.
  - unfold fit_to_case, handleAutoFill.
    cbn [imageSrc imgWidth imgHeight truthy_opt_str truthy_opt_num nullish_num].
    destruct (truthy_str _ && truthy_num fw && truthy_num fh); reflexivity.
Qed.


(* ----------------------------------------------------------------- *)
(** ** Templates *)

(** What the builder resolves with comes from the last magenta shape. *)
Lemma processSingleTemplate_resolved
      (file_name fresh_id : string) (doc : Document) (m : PhoneModel) :
  processSingleTemplate file_name fresh_id doc = Resolved m ->
  svgElement doc = true /\
  exists e,
    last_or None (keep magenta (shapeElements doc)) = Some e /\
    path_truthy (shapeToPath e) = true /\
    m = {| id := fresh_id;
           name := replace_first ".svg" "" file_name;
           brand := "Vlastná šablóna";
           width := bbox_width (getBBox e);
           height := bbox_height (getBBox e);
           minX := Some (bbox_x (getBBox e));
           minY := Some (bbox_y (getBBox e));
           screenRatio := bbox_width (getBBox e) / bbox_height (getBBox e);
           svgPath := shapeToPath e;
           cameraPath := join_paths (keep cyan (shapeElements doc));
           safeZonePath :=
             match keep red (shapeElements doc) with
             | [] => generated_safe_zone (getBBox e)
             | _ :: _ => join_paths (keep red (shapeElements doc))
             end |}.
Proof.
  unfold processSingleTemplate, classify. rewrite classify_from.
  cbn [caseElement cameraElements safeZoneElements no_shapes app].
  destruct (svgElement doc); cbn [negb]; [ | discriminate].
  destruct (last_or None (keep magenta (shapeElements doc))) as [e | ];
    [ | discriminate].
  destruct (path_truthy (shapeToPath e)) eqn:Ep; cbn [negb]; [ | discriminate].
  intro E. injection E as <-. split; [reflexivity | ].
  exists e. repeat split. exact Ep.
Qed.



Lemma upload_results_from (files : list TemplateFile) : forall acc,
  fold_left upload_step files acc =
  mkUploadResults
    (success acc ++ resolved_models files)
    (errors acc ++
       flat_map (fun f => match process_file f with
                          | Resolved _ => []
                          | Rejected msg =>
                              [(tf_name f,
                                if truthy_str msg then msg
                                else "Chyba pri spracovaní SVG súboru."%string)]
                          end) files).
Proof.
  induction files as [ | f files IH]; intro acc.
  - destruct acc. simpl. rewrite !app_nil_r. reflexivity.
  - cbn [fold_left]. rewrite IH. unfold upload_step, resolved_models.
    cbn [flat_map]. destruct (process_file f); cbn [success errors app];
      rewrite <- ?app_assoc; reflexivity.
Qed.

(** X18.  Uploading templates.  Without admin rights nothing changes.
    Otherwise every file is processed on its own: the files that the
    builder accepts give the new models, in the order of the files, and
    the others give one error entry each, so a bad file never blocks a
    good one.  The models there were stay in place and the new ones are
    added after them; the first new model becomes the selected one; with
    no new model nothing changes.  Every new model has a non-empty
    outline. *)
Theorem template_upload_adds_the_accepted_files
        (files : list TemplateFile) (st : Templates) :
  handleTemplateUpload false files st = st /\
  success (upload_results files) = resolved_models files /\
  map fst (errors (upload_results files)) = rejected_names files /\
  (List.length (success (upload_results files))
   + List.length (errors (upload_results files)) = List.length files)%nat /\
  availableModels (handleTemplateUpload true files st)
  = availableModels st ++ resolved_models files /\
  (forall m, In m (resolved_models files) -> path_truthy (svgPath m) = true) /\
  match resolved_models files with
  | [] => handleTemplateUpload true files st = st
  | first :: _ => selectedModel (handleTemplateUpload true files st) = Some first
  end.
Proof.
  assert (Hs : success (upload_results files) = resolved_models files).
  { unfold upload_results. rewrite upload_results_from. reflexivity. }
  split; [reflexivity | split; [exact Hs | split; [ | split; [ | split; [ | split]]]]].
  - clear Hs. unfold upload_results. rewrite upload_results_from. cbn [errors app].
    unfold rejected_names. induction files as [ | f files IH]; [reflexivity | ].
    cbn [flat_map]. rewrite map_app, IH.
    destruct (process_file f); reflexivity.
  - clear Hs. unfold upload_results. rewrite upload_results_from.
    cbn [errors success app]. unfold resolved_models.
    induction files as [ | f files IH]; [reflexivity | ].
    cbn [flat_map List.length]. rewrite !length_app.
    destruct (process_file f); cbn [List.length]; lia.
  - unfold handleTemplateUpload. cbn [negb]. rewrite Hs.
    destruct files as [ | f files]; [rewrite app_nil_r; reflexivity | ].
    destruct (resolved_models (f :: files)); [rewrite app_nil_r | ]; reflexivity.
  - intros m Hin. unfold resolved_models in Hin. apply in_flat_map in Hin.
    destruct Hin as (f & _ & Hm).
    destruct (process_file f) as [m' | msg] eqn:E; [ | contradiction].
    destruct Hm as [<- | []].
    unfold process_file in E. destruct (tf_content f) as [doc | ]; [ | discriminate].
    destruct (processSingleTemplate_resolved _ _ _ _ E) as (_ & e & _ & Hp & ->).
    exact Hp.
  - unfold handleTemplateUpload. cbn [negb]. rewrite Hs.
    destruct files as [ | f files]; [reflexivity | ].
    destruct (resolved_models (f :: files)); reflexivity.
Qed.

(* ----------------------------------------------------------------- *)
(** ** Deleting a template and keeping the selection valid *)

Lemma filter_other_ids (i : string) (l : list PhoneModel) :
  NoDup (map id l) -> (exists m, In m l /\ id m = i) ->
  S (List.length (filter (fun m => negb (id m =? i)) l)) = List.length l.
Proof.
  induction l as [ | a l IH]; intros Hnd (m & Hin & Hid); [contradiction | ].
  cbn [map] in Hnd. inversion Hnd as [ | ? ? Hnotin Hnd']; subst.
  cbn [filter]. destruct (id a =? id m) eqn:E; cbn [negb List.length].
  - f_equal. apply String.eqb_eq in E. rewrite filter_all; [reflexivity | ].
    intros b Hb. apply negb_true_iff, String.eqb_neq. intro Eb.
    apply Hnotin. rewrite E, <- Eb. apply in_map. exact Hb.
  - f_equal. apply IH; [exact Hnd' | ].
    exists m. split; [ | reflexivity].
    destruct Hin as [<- | Hin]; [rewrite String.eqb_refl in E; discriminate | exact Hin].
Qed.

(** X19.  Deleting the selected template.  Nothing is deleted when no
    template is selected, when at most one template is left, or when the
    user declines.  Otherwise the templates with the selected identifier
    go and no other: the rest keep their order and the first of them
    becomes the selected one.  When the identifiers are distinct and the
    selected template is in the list, exactly one template goes, so the
    list never becomes empty. *)
Theorem delete_model_removes_the_selected_one (confirmed : bool) (st : Templates) :
  (selectedModel st = None -> handleDeleteModel confirmed st = st) /\
  ((List.length (availableModels st) <= 1)%nat -> handleDeleteModel confirmed st = st) /\
  handleDeleteModel false st = st /\
  (forall sel,
     selectedModel st = Some sel ->
     (2 <= List.length (availableModels st))%nat ->
     let st' := handleDeleteModel true st in
     availableModels st'
     = filter (fun m => negb (id m =? id sel)) (availableModels st) /\
     (forall m, In m (availableModels st') <->
                In m (availableModels st) /\ id m <> id sel) /\
     selectedModel st' = hd_error (availableModels st') /\
     (NoDup (map id (availableModels st)) -> In sel (availableModels st) ->
      S (List.length (availableModels st')) = List.length (availableModels st) /\
      availableModels st' <> [])).
Proof.
  unfold handleDeleteModel. split; [ | split; [ | split]].
  - intros ->. reflexivity.
  - intro Hle. apply Nat.leb_le in Hle. rewrite Hle.
    destruct (selectedModel st); reflexivity.
  - destruct (selectedModel st); [ | reflexivity].
    destruct (List.length (availableModels st) <=? 1)%nat; reflexivity.
  - intros sel -> Hlen.
    assert (E : (List.length (availableModels st) <=? 1)%nat = false)
      by (apply Nat.leb_gt; lia).
    rewrite E. cbn [availableModels selectedModel].
    split; [reflexivity | split; [ | split; [reflexivity | ]]].
    + intro m. rewrite filter_In, negb_true_iff, String.eqb_neq. reflexivity.
    + intros Hnd Hin.
      assert (Hl : S (List.length (filter (fun m => negb (id m =? id sel))
                                          (availableModels st)))
                   = List.length (availableModels st)).
      { apply filter_other_ids; [exact Hnd | ]. exists sel. split; [exact Hin | reflexivity]. }
      split; [exact Hl | ]. intro Hnil. rewrite Hnil in Hl. cbn [List.length] in Hl. lia.
Qed.

(** X20.  The selection effect makes the selection valid: afterwards a
    template is selected exactly when there is one, the selected template
    has the identifier of a template of the list, and the list itself is
    untouched.  A valid selection is kept, and running the effect again
    changes nothing. *)
Theorem selection_effect_makes_the_selection_valid (st : Templates) :
  let st' := ensure_selection st in
  availableModels st' = availableModels st /\
  (selectedModel st' = None <-> availableModels st = []) /\
  (forall sel, selectedModel st' = Some sel ->
     exists m, In m (availableModels st) /\ id m = id sel) /\
  (forall sel m, selectedModel st = Some sel -> In m (availableModels st) ->
                 id m = id sel -> st' = st) /\
  ensure_selection st' = st'.
Proof.
  destruct st as [models sel]. unfold ensure_selection.
  cbn [availableModels selectedModel].
  destruct sel as [sel | ].
  - destruct (find (fun m => id m =? id sel) models) as [m | ] eqn:Ef.
    + apply find_some in Ef as Hm. destruct Hm as [Hin Hid].
      apply String.eqb_eq in Hid.
      cbn [availableModels selectedModel]. rewrite Ef.
      split; [reflexivity | split; [ | split; [ | split; reflexivity]]].
      * split; [discriminate | ]. intros ->. contradiction.
      * intros s E. injection E as <-. exists m. split; assumption.
    + cbn [availableModels selectedModel].
      split; [reflexivity | split; [ | split; [ | split]]].
      * destruct models; cbn; split; intro; congruence.
      * intros s E. destruct models as [ | m0 ms]; [discriminate | ].
        cbn in E. injection E as <-. exists m0. split; [left | ]; reflexivity.
      * intros s m E Hin Hid. injection E as <-.
        apply (find_none _ _ Ef) in Hin. apply String.eqb_neq in Hin. contradiction.
      * destruct models as [ | m0 ms]; [reflexivity | ].
        cbn [first_model hd_error find]. rewrite String.eqb_refl. reflexivity.
  - destruct models as [ | m0 ms]; cbn [availableModels selectedModel].
    + repeat split; try reflexivity; try discriminate.
    + cbn [find]. rewrite String.eqb_refl.
      split; [reflexivity | split; [ | split; [ | split]]].
      * split; discriminate.
      * intros s E. injection E as <-. exists m0. split; [left | ]; reflexivity.
      * intros s m E. discriminate E.
      * reflexivity.
Qed.


(* ----------------------------------------------------------------- *)
(** ** Orders *)

Section OrderProperties.
Context `{HostMath}.

(** X21.  An order is recorded exactly when the design has an image, a
    model is selected and the compositor resolves.  The order then goes
    in front of the earlier ones, which stay as they are; it carries the
    model's identifier and name, the print file of the design as it is,
    and the design without its image source; the view turns to the
    success page.  In every other case the orders and the view stay as
    they were, and the failure alert is shown only when the compositor
    rejects. *)
Theorem order_is_recorded_with_its_print_file
        (stamp : string) (now : Q) (has_context : bool) (decoded : option (Q * Q))
        (d : DesignState) (sel : option PhoneModel) (shop : Shop) :
  let res := handleSubmitOrder stamp now has_context decoded d sel shop in
  (forall model pf,
     truthy_opt_str (imageSrc d) = true -> sel = Some model ->
     generatePrintFile has_context decoded model d = Resolved pf ->
     exists order,
       res = (mkShop (order :: orders shop) SUCCESS, None) /\
       order_id order = stamp /\ modelId order = id model /\
       modelName order = name model /\ timestamp order = now /\
       printFileUrl order = pf /\
       imageSrc (order_design order) = None /\
       with_texts (order_design order) (textElements d)
       = {| scale := scale d; x := x d; y := y d; rotation := rotation d;
            imageSrc := None; imgWidth := imgWidth d; imgHeight := imgHeight d;
            textElements := textElements d |}) /\
  (fst res <> shop ->
   exists model pf,
     truthy_opt_str (imageSrc d) = true /\ sel = Some model /\
     generatePrintFile has_context decoded model d = Resolved pf) /\
  (snd res <> None ->
   fst res = shop /\
   exists model msg,
     sel = Some model /\
     generatePrintFile has_context decoded model d = Rejected msg).
Proof.
  intro res. subst res. unfold handleSubmitOrder. split; [ | split].
  - intros model pf Himg -> Hpf. rewrite Himg, Hpf. cbn [negb].
    eexists. split; [reflexivity | ]. repeat split.
  - destruct (truthy_opt_str (imageSrc d)); cbn [negb fst];
      [ | intro Hn; contradiction Hn; reflexivity].
    destruct sel as [model | ]; [ | intro Hn; contradiction Hn; reflexivity].
    destruct (generatePrintFile has_context decoded model d) as [pf | msg] eqn:E;
      [ | intro Hn; contradiction Hn; reflexivity].
    intros _. exists model, pf. repeat split. exact E.
  - destruct (truthy_opt_str (imageSrc d)); cbn [negb snd fst];
      [ | intro Hn; contradiction Hn; reflexivity].
    destruct sel as [model | ]; [ | intro Hn; contradiction Hn; reflexivity].
    destruct (generatePrintFile has_context decoded model d) as [pf | msg] eqn:E;
      [intro Hn; contradiction Hn; reflexivity | ].
    intros _. split; [reflexivity | ]. exists model, msg. split; [reflexivity | exact E].
Qed.

(** X22.  Deleting an order removes the orders with that identifier and
    no other, keeps the rest in order and leaves the view alone; declined,
    it changes nothing.  Deleting the order that was just submitted, when
    no earlier order has its identifier, gives back the orders there were
    before. *)
Theorem delete_order_undoes_a_submission
        (stamp : string) (now : Q) (has_context : bool) (decoded : option (Q * Q))
        (d : DesignState) (model : PhoneModel) (shop : Shop) (pf : PrintFile) :
  handleDeleteOrder false stamp shop = shop /\
  (forall o, In o (orders (handleDeleteOrder true stamp shop)) <->
             In o (orders shop) /\ order_id o <> stamp) /\
  viewMode (handleDeleteOrder true stamp shop) = viewMode shop /\
  (truthy_opt_str (imageSrc d) = true ->
   generatePrintFile has_context decoded model d = Resolved pf ->
   (forall o, In o (orders shop) -> order_id o <> stamp) ->
   orders (handleDeleteOrder true stamp
             (fst (handleSubmitOrder stamp now has_context decoded d (Some model) shop)))
   = orders shop).
Proof.
  split; [reflexivity | split; [ | split; [reflexivity | ]]].
  - intro o. unfold handleDeleteOrder. cbn [orders].
    rewrite filter_In, negb_true_iff, String.eqb_neq. reflexivity.
  - intros Himg Hpf Hfresh. unfold handleSubmitOrder. rewrite Himg, Hpf.
    cbn [negb fst handleDeleteOrder orders filter order_id].
    rewrite String.eqb_refl. cbn [negb].
    apply filter_all. intros o Hin.
    apply negb_true_iff, String.eqb_neq, Hfresh. exact Hin.
Qed.

End OrderProperties.

(* ================================================================= *)
(** ** The colour spectrum bar *)

Ltac compare_all :=
  repeat match goal with
         | |- context [Qlt_bool ?a ?b] =>
             lazymatch a with
             | context [if _ then _ else _] => fail
             | _ => idtac
             end;
             let E := fresh "E" in
             destruct (Qlt_bool a b) eqn:E;
             [apply Qlt_bool_true in E | apply Qlt_bool_false in E]
         | |- context [Qgt_bool ?a ?b] =>
             lazymatch a with
             | context [if _ then _ else _] => fail
             | _ => idtac
             end;
             let E := fresh "E" in
             destruct (Qgt_bool a b) eqn:E;
             [apply Qgt_bool_true in E | apply Qgt_bool_false in E]
         end.

Ltac fractions :=
  repeat match goal with
         | |- context [Qdiv ?a ?b] =>
             let v := eval cbv in (Qdiv a b) in
             progress change (Qdiv a b) with v
         | H : context [Qdiv ?a ?b] |- _ =>
             let v := eval cbv in (Qdiv a b) in
             progress change (Qdiv a b) with v in H
         end.

Lemma hue2rgb_unit (p q t : Q) :
  p == 0 -> q == 1 -> -1 <= t -> t <= 2 ->
  0 <= hue2rgb p q t /\ hue2rgb p q t <= 1.
Proof.
  intros Hp Hq H1 H2. unfold hue2rgb.
  compare_all; rewrite ?Hp, ?Hq; fractions; lra.
Qed.

Lemma hue2rgb_full (p q t : Q) :
  p == 0 -> q == 1 ->
  (1 / 6 <= t /\ t <= 1 / 2) \/ (7 / 6 <= t /\ t <= 3 / 2) ->
  hue2rgb p q t == 1.
Proof.
  intros Hp Hq Ht. unfold hue2rgb.
  compare_all; rewrite ?Hp, ?Hq; fractions; destruct Ht; lra.
Qed.

Lemma hue2rgb_empty (p q t : Q) :
  p == 0 -> q == 1 ->
  (2 / 3 <= t /\ t <= 1) \/ (- (1 / 3) <= t /\ t <= 0) ->
  hue2rgb p q t == 0.
Proof.
  intros Hp Hq Ht. unfold hue2rgb.
  compare_all; rewrite ?Hp, ?Hq; fractions; destruct Ht; lra.
Qed.

Lemma hue_channels (p q h : Q) :
  p == 0 -> q == 1 -> 0 <= h -> h <= 1 ->
  let r := hue2rgb p q (h + 1 / 3) in
  let g := hue2rgb p q h in
  let b := hue2rgb p q (h - 1 / 3) in
  (0 <= r /\ r <= 1) /\ (0 <= g /\ g <= 1) /\ (0 <= b /\ b <= 1) /\
  (r == 1 \/ g == 1 \/ b == 1) /\ (r == 0 \/ g == 0 \/ b == 0).
Proof.
  intros Hp Hq H0 H1. cbn zeta.
  repeat split;
    try (apply hue2rgb_unit; [assumption | assumption | fractions; lra ..]).
  - destruct (Qlt_le_dec h (1 / 6)); [ | destruct (Qlt_le_dec h (1 / 2));
      [ | destruct (Qlt_le_dec h (5 / 6))]].
    + left. apply hue2rgb_full; [assumption .. | fractions; lra].
    + right; left. apply hue2rgb_full; [assumption .. | fractions; lra].
    + right; right. apply hue2rgb_full; [assumption .. | fractions; lra].
    + left. apply hue2rgb_full; [assumption .. | fractions; lra].
  - destruct (Qlt_le_dec h (1 / 3)); [ | destruct (Qlt_le_dec h (2 / 3))].
    + right; right. apply hue2rgb_empty; [assumption .. | fractions; lra].
    + left. apply hue2rgb_empty; [assumption .. | fractions; lra].
    + right; left. apply hue2rgb_empty; [assumption .. | fractions; lra].
Qed.

Lemma round_full (x : Q) : x == 1 -> Math_round (x * 255) = 255%Z.
Proof. intro E. unfold Math_round. rewrite E. reflexivity. Qed.

Lemma round_empty (x : Q) : x == 0 -> Math_round (x * 255) = 0%Z.
Proof. intro E. unfold Math_round. rewrite E. reflexivity. Qed.

Lemma round_unit (x : Q) :
  0 <= x -> x <= 1 -> (0 <= Math_round (x * 255) <= 255)%Z.
Proof.
  intros H0 H1. unfold Math_round. split.
  - apply (Qfloor_resp_le (1 # 2)). fractions. lra.
  - apply (Qfloor_resp_le _ (511 # 2)). fractions. lra.
Qed.

Lemma position_rgb_saturated (position : Q) :
  0 <= position -> position <= 100 ->
  let '(r, g, b) := position_rgb position in
  saturated (Math_round (r * 255)) (Math_round (g * 255))
            (Math_round (b * 255)) = true.
Proof.
  intros H0 H1. unfold position_rgb. cbn zeta.
  set (q := if Qlt_bool (1 / 2) (1 / 2) then _ else _).
  set (p := 2 * (1 / 2) - q).
  set (h := position / 100 * 360 / 360).
  assert (Hq : q == 1) by reflexivity.
  assert (Hp : p == 0) by reflexivity.
  assert (Hh : h == position * (1 # 100)) by (unfold h; field).
  destruct (hue_channels p q h Hp Hq) as (Hr & Hg & Hb & Hfull & Hempty);
    [lra | lra | ].
  cbn zeta in *.
  pose proof (round_unit _ (proj1 Hr) (proj2 Hr)) as Br.
  pose proof (round_unit _ (proj1 Hg) (proj2 Hg)) as Bg.
  pose proof (round_unit _ (proj1 Hb) (proj2 Hb)) as Bb.
  assert (Ff : Math_round (hue2rgb p q (h + 1 / 3) * 255) = 255%Z
               \/ Math_round (hue2rgb p q h * 255) = 255%Z
               \/ Math_round (hue2rgb p q (h - 1 / 3) * 255) = 255%Z).
  { destruct Hfull as [E | [E | E]]; [left | right; left | right; right];
      apply round_full, E. }
  assert (Fe : Math_round (hue2rgb p q (h + 1 / 3) * 255) = 0%Z
               \/ Math_round (hue2rgb p q h * 255) = 0%Z
               \/ Math_round (hue2rgb p q (h - 1 / 3) * 255) = 0%Z).
  { destruct Hempty as [E | [E | E]]; [left | right; left | right; right];
      apply round_empty, E. }
  revert Br Bg Bb Ff Fe.
  generalize (Math_round (hue2rgb p q (h + 1 / 3) * 255)).
  generalize (Math_round (hue2rgb p q h * 255)).
  generalize (Math_round (hue2rgb p q (h - 1 / 3) * 255)).
  intros b g r Br Bg Bb Ff Fe. unfold saturated.
  rewrite !andb_true_iff, !Z.leb_le, !Z.eqb_eq. lia.
Qed.

Lemma Math_max_min_percent (a : Q) :
  0 <= Math_max 0 (Math_min 100 a) /\ Math_max 0 (Math_min 100 a) <= 100.
Proof.
  unfold Math_max, Math_min. split.
  - apply Q.le_max_l.
  - apply Q.max_lub; [lra | apply Q.le_min_l].
Qed.

Lemma byte_in_bytes (v : Z) : (0 <= v <= 255)%Z -> In v bytes.
Proof.
  intro Hv. unfold bytes. apply in_map_iff. exists (Z.to_nat v). split.
  - lia.
  - apply in_seq. lia.
Qed.

Lemma saturated_in_hue_circle (r g b : Z) :
  saturated r g b = true -> In (r, g, b) hue_circle.
Proof.
  unfold saturated. rewrite !andb_true_iff, !Z.leb_le, !Z.eqb_eq.
  intros [[[[[[[R0 R1] G0] G1] B0] B1] Hmax] Hmin].
  unfold hue_circle. apply in_flat_map.
  assert (Hcases :
            ((r = 255 /\ b = 0) \/ (r = 255 /\ g = 0) \/ (g = 255 /\ b = 0)
             \/ (r = 0 /\ g = 255) \/ (g = 0 /\ b = 255)
             \/ (r = 0 /\ b = 255))%Z) by lia.
  destruct Hcases as [[-> ->] | [[-> ->] | [[-> ->] | [[-> ->] | [[-> ->]
                     | [-> ->]]]]]].
  - exists g. split; [apply byte_in_bytes; lia | cbn; tauto].
  - exists b. split; [apply byte_in_bytes; lia | cbn; tauto].
  - exists r. split; [apply byte_in_bytes; lia | cbn; tauto].
  - exists b. split; [apply byte_in_bytes; lia | cbn; tauto].
  - exists r. split; [apply byte_in_bytes; lia | cbn; tauto].
  - exists g. split; [apply byte_in_bytes; lia | cbn; tauto].
Qed.

Lemma forallb_eqb_In {A : Type} (f g : A -> string) (l : list A) (x : A) :
  forallb (fun c => (f c =? g c)%string) l = true -> In x l -> f x = g x.
Proof.
  intros Hall Hin. rewrite forallb_forall in Hall.
  apply String.eqb_eq. apply Hall, Hin.
Qed.

Lemma hue_circle_round_trips :
  forallb (fun c => (replaced c =? written c)%string) hue_circle = true.
Proof. vm_compute. reflexivity. Qed.

Lemma hue_position_range (r g b : option Q) :
  0 <= hue_position r g b /\ hue_position r g b < 100.
Proof.
  destruct r as [r | ], g as [g | ], b as [b | ];
    try (cbn; split; [apply Qle_refl | reflexivity]).
  unfold hue_position. cbv zeta.
  set (M := Math_max r (Math_max g b)).
  set (m := Math_min r (Math_min g b)).
  assert (HrM : r <= M) by apply Q.le_max_l.
  assert (HgM : g <= M).
  { unfold M. eapply Qle_trans; [ | apply Q.le_max_r]. apply Q.le_max_l. }
  assert (HbM : b <= M).
  { unfold M. eapply Qle_trans; [ | apply Q.le_max_r]. apply Q.le_max_r. }
  assert (Hmr : m <= r) by apply Q.le_min_l.
  assert (Hmg : m <= g).
  { unfold m. eapply Qle_trans; [apply Q.le_min_r | ]. apply Q.le_min_l. }
  assert (Hmb : m <= b).
  { unfold m. eapply Qle_trans; [apply Q.le_min_r | ]. apply Q.le_min_r. }
  clearbody M m.
  destruct (Qeq_bool M m) eqn:EMm; cbn [negb]; [split; lra | ].
  assert (Hd : 0 < M - m).
  { destruct (Qlt_le_dec m M) as [Hlt | Hle]; [lra | ].
    exfalso. assert (E : M == m) by lra.
    apply Qeq_bool_iff in E. congruence. }
  assert (Hquot : forall x : Q,
             - (M - m) <= x -> x <= M - m ->
             -1 <= x / (M - m) /\ x / (M - m) <= 1).
  { intros x H1 H2. split.
    - apply Qle_shift_div_l; [exact Hd | lra].
    - apply Qle_shift_div_r; [exact Hd | lra]. }
  destruct (Qeq_bool M r) eqn:EMr;
    [ | destruct (Qeq_bool M g) eqn:EMg;
        [ | destruct (Qeq_bool M b) eqn:EMb; [ | split; lra]]].
  - apply Qeq_bool_iff in EMr.
    destruct (Hquot (g - b)) as [Q1 Q2]; [lra | lra | ].
    destruct (Qlt_bool g b) eqn:Egb.
    + apply Qlt_bool_true in Egb.
      assert (Q3 : (g - b) / (M - m) < 0).
      { apply Qlt_shift_div_r; [exact Hd | lra]. }
      revert Q1 Q2 Q3. generalize ((g - b) / (M - m)). intros x Q1 Q2 Q3.
      assert (E : (x + 6) / 6 * 100 == (x + 6) * (100 # 6)) by field.
      rewrite E. split; lra.
    + apply Qlt_bool_false in Egb.
      assert (Q3 : 0 <= (g - b) / (M - m)).
      { apply Qle_shift_div_l; [exact Hd | lra]. }
      revert Q1 Q2 Q3. generalize ((g - b) / (M - m)). intros x Q1 Q2 Q3.
      assert (E : (x + 0) / 6 * 100 == x * (100 # 6)) by field.
      rewrite E. split; lra.
  - destruct (Hquot (b - r)) as [Q1 Q2]; [lra | lra | ].
    revert Q1 Q2. generalize ((b - r) / (M - m)). intros x Q1 Q2.
    assert (E : (x + 2) / 6 * 100 == (x + 2) * (100 # 6)) by field.
    rewrite E. split; lra.
  - destruct (Hquot (r - g)) as [Q1 Q2]; [lra | lra | ].
    revert Q1 Q2. generalize ((r - g) / (M - m)). intros x Q1 Q2.
    assert (E : (x + 4) / 6 * 100 == (x + 4) * (100 # 6)) by field.
    rewrite E. split; lra.
Qed.

(** X23.  Wherever the pointer is, a mounted spectrum bar of non-zero
    width keeps its slider between 0 and 100 percent and picks a colour
    of the hue circle: a [#rrggbb] string whose three bytes lie between 0
    and 255, the largest being 255 and the smallest 0. *)
Theorem spectrum_bar_picks_a_colour_of_the_hue_circle
        (rect_left width clientX : Q) :
  ~ width == 0 ->
  exists position hex,
    updateColor (Some (rect_left, width)) clientX = Some (position, hex) /\
    0 <= position /\ position <= 100 /\
    exists r g b : Z, saturated r g b = true /\ hex = rgb_hex r g b.
Proof.
  intros _. unfold updateColor.
  destruct (Math_max_min_percent ((clientX - rect_left) / width * 100))
    as [H0 H1].
  eexists. eexists. split; [reflexivity | ].
  split; [exact H0 | split; [exact H1 | ]].
  pose proof (position_rgb_saturated _ H0 H1) as Hs.
  unfold positionToHex.
  destruct (position_rgb _) as [[r g] b].
  exists (Math_round (r * 255)), (Math_round (g * 255)),
    (Math_round (b * 255)).
  split; [exact Hs | reflexivity].
Qed.

(** X24.  A colour of the hue circle survives the bar: placing the
    slider on it with [hexToPosition] and reading the colour of that
    position with [positionToHex] gives the colour back, digit for
    digit. *)
Theorem hue_circle_colour_round_trip (r g b : Z) :
  saturated r g b = true ->
  positionToHex (hexToPosition (rgb_hex r g b)) = rgb_hex r g b.
Proof.
  intro Hs. apply saturated_in_hue_circle in Hs.
  exact (forallb_eqb_In replaced written hue_circle (r, g, b)
           hue_circle_round_trips Hs).
Qed.

(** X25.  Whatever string it is given, [hexToPosition] places the slider
    at 0 percent or more and strictly below 100 percent. *)
Theorem slider_position_is_below_100 (hex : string) :
  0 <= hexToPosition hex /\ hexToPosition hex < 100.
Proof. unfold hexToPosition. apply hue_position_range. Qed.

(** X26.  A colour with a channel that cannot be read, or with three
    equal channels (a grey), places the slider at the left end. *)
Theorem grey_or_unreadable_colour_is_at_the_left_end (hex : string) :
  let h := replace_first "#" "" hex in
  channel h 0 = None \/ channel h 2 = None \/ channel h 4 = None
  \/ (channel h 0 = channel h 2 /\ channel h 2 = channel h 4) ->
  hexToPosition hex == 0.
Proof.
  cbv zeta. unfold hexToPosition.
  generalize (channel (replace_first "#" "" hex) 0),
    (channel (replace_first "#" "" hex) 2),
    (channel (replace_first "#" "" hex) 4).
  intros r g b [-> | [-> | [-> | [-> ->]]]].
  - reflexivity.
  - destruct r; reflexivity.
  - destruct r, g; reflexivity.
  - destruct b as [b | ]; [ | reflexivity].
    unfold hue_position. cbv zeta.
    assert (E : Math_max b (Math_max b b) == Math_min b (Math_min b b)).
    { unfold Math_max, Math_min. rewrite !Q.max_id, !Q.min_id. reflexivity. }
    apply Qeq_bool_iff in E. rewrite E. reflexivity.
Qed.

(* ================================================================= *)
(** ** The synthesized safe zone *)

(** X27.  A template without red shapes gets a synthesized safe zone:
    for an outline of non-negative width it draws the outline's bounding
    box shrunk on all four sides by 5% of the box's width (the height
    plays no part in the margin). *)
Theorem synthesized_safe_zone_is_inset_by_the_width
        (file_name fresh_id : string) (doc : Document) (m : PhoneModel) :
  processSingleTemplate file_name fresh_id doc = Resolved m ->
  keep red (shapeElements doc) = [] ->
  0 <= width m ->
  draws_rect (safeZonePath m)
             (nullish_num (minX m) 0 + width m * 0.05)
             (nullish_num (minY m) 0 + width m * 0.05)
             (width m - 2 * (width m * 0.05))
             (height m - 2 * (width m * 0.05)) = true.
Proof.
  intros Hm Hred Hw.
  apply processSingleTemplate_resolved in Hm.
  destruct Hm as (_ & e & _ & _ & ->).
  rewrite Hred in *.
  cbn [safeZonePath minX minY width height nullish_num] in *.
  apply generated_safe_zone_draws_inset. exact Hw.
Qed.

(* ================================================================= *)
(** ** Instances of the further properties *)

Ltac nonzero := let E := fresh in intro E; vm_compute in E; discriminate E.

(** X1 at the sample model and the moved design. *)
Lemma print_matches_editor_image_witness :
  exists pf M cl above,
    @generatePrintFile sample_host true (Some (300, 500)) sample_model
                       sample_moved_design = Resolved pf /\
    paints (@run sample_host (calls pf))
    = painted_image M cl 300 500 (- 300 / 2) (- 500 / 2) :: above /\
    forall u v,
      same_point
        (m_apply M (- 300 / 2 + u, - 500 / 2 + v))
        (m_apply (native_frame sample_model)
           (m_apply (@svg_matrix sample_host
                       (editor_image_transform sample_model sample_moved_design))
                    (u, v))).
Proof.
  apply (@print_matches_editor_image sample_host sample_model
           sample_moved_design 300 500);
    [reflexivity | nonzero | reflexivity | nonzero].
Defined.

(** X2 at the sample design and its text. *)
Lemma print_matches_editor_text_witness :
  In sample_text (texts_of sample_design) /\
  exists pf M cl,
    @generatePrintFile sample_host true (Some (300, 500)) sample_model
                       sample_design = Resolved pf /\
    In (painted_text M cl (et_content (editor_text_of sample_model sample_text)) 0 0)
       (paints (@run sample_host (calls pf))) /\
    forall p,
      same_point
        (m_apply M p)
        (m_apply (native_frame sample_model)
           (m_apply (@svg_matrix sample_host
                       (et_transform (editor_text_of sample_model sample_text)))
                    p)).
Proof.
  assert (Hin : In sample_text (texts_of sample_design)) by (left; reflexivity).
  split; [exact Hin | ].
  pose proof (@print_matches_editor_text sample_host sample_model sample_design
                300 500 sample_text Hin) as W.
  cbv zeta in W.
  destruct W as (pf & M & cl & _ & _ & _ & _ & _ & Hpf & _ & Hp & Hs).
  exists pf, M, cl. split; [exact Hpf | split; [exact Hp | exact Hs]].
Defined.

(** X4 at the sample model in the sample editor. *)
Lemma editor_scale_fits_the_case_witness :
  width sample_model * editorScale sample_model sample_editor
  <= 0.85 * container_width sample_editor /\
  height sample_model * editorScale sample_model sample_editor
  <= 0.85 * container_height sample_editor.
Proof.
  destruct (editor_scale_fits_the_case sample_model sample_editor)
    as (Hw & Hh & _); [nonzero | reflexivity | reflexivity | ].
  split; [exact Hw | exact Hh].
Defined.

(** X5 for a finger going from (10, 10) to (25, 40). *)
Lemma touch_pan_follows_the_finger_witness :
  let moved :=
    @handleTouchMove sample_host sample_model [mkTouch 25 40]
                     (@handleTouchStart sample_host [mkTouch 10 10] sample_editor) in
  editorScale sample_model sample_editor
  * (x (design moved) - x (design sample_editor)) == 25 - 10 /\
  editorScale sample_model sample_editor
  * (y (design moved) - y (design sample_editor)) == 40 - 10.
Proof.
  destruct (@touch_pan_follows_the_finger sample_host sample_model sample_editor
              (mkTouch 10 10) (mkTouch 25 40) (mkTouch 0 0))
    as (Hx & Hy & _); [reflexivity | nonzero | ].
  split; [exact Hx | exact Hy].
Defined.

(** X6 for a pointer moving over an editor in which nothing is pressed. *)
Lemma image_moves_only_while_dragged_witness :
  image_listeners sample_ui = false /\
  x (design (core (window_dispatch sample_model sample_ui
                     (mousemove (mkMouseEvent 40 50 false)))))
  = x (design (core sample_ui)).
Proof.
  split; [reflexivity | ].
  destruct (image_moves_only_while_dragged sample_model sample_ui
              (mkMouseEvent 0 0 false) (mousemove (mkMouseEvent 40 50 false)))
    as (_ & Hidle & _).
  destruct (Hidle eq_refl) as (_ & Hx & _). exact Hx.
Defined.

(** X7 for a pointer pressed at (10, 10) and moved to (25, 40). *)
Lemma mouse_pan_follows_the_pointer_witness :
  let moved :=
    design (core (window_dispatch sample_model
                    (fst (handleMouseDown (mkMouseEvent 10 10 false) sample_ui))
                    (mousemove (mkMouseEvent 25 40 false)))) in
  editorScale sample_model (core sample_ui)
  * (x moved - x (design (core sample_ui))) == 25 - 10 /\
  editorScale sample_model (core sample_ui)
  * (y moved - y (design (core sample_ui))) == 40 - 10.
Proof.
  destruct (mouse_pan_follows_the_pointer sample_model sample_ui
              (mkMouseEvent 10 10 false) (mkMouseEvent 25 40 false))
    as (Hx & Hy & _);
    [reflexivity | reflexivity | reflexivity | reflexivity | nonzero | ].
  split; [exact Hx | exact Hy].
Defined.

(** X8 for a wheel step over the sample text. *)
Lemma text_wheel_rescales_one_text_witness :
  find_text (design sample_text_editor) "text-1" = Some sample_text /\
  scale (design (handleTextWheel (mkWheelEvent 120 false false) "text-1"
                                 sample_text_editor))
  = scale (design sample_text_editor).
Proof.
  split; [reflexivity | ].
  destruct (text_wheel_rescales_one_text (mkWheelEvent 120 false false)
              "text-1" sample_text_editor) as [_ Hfound].
  destruct (Hfound sample_text eq_refl) as (_ & Hs & _). exact Hs.
Defined.

(** X9 for the sample text pressed at (10, 10) and dragged to (25, 40). *)
Lemma text_drag_moves_one_text_witness :
  find_text (design (core sample_ui)) "text-1" = Some sample_text /\
  selectedTextId (handleTextMouseDown (mkMouseEvent 10 10 true) "text-1" sample_ui)
  = Some "text-1" /\
  image_listeners (handleTextMouseDown (mkMouseEvent 10 10 true) "text-1" sample_ui)
  = false.
Proof.
  split; [reflexivity | ].
  destruct (text_drag_moves_one_text sample_model sample_ui "text-1"
              (mkMouseEvent 10 10 true) (mkMouseEvent 25 40 true))
    as [_ Hfound].
  destruct (Hfound sample_text eq_refl) as (Hsel & Hl & _);
    [discriminate | nonzero | ].
  split; [exact Hsel | exact Hl].
Defined.

(** X10 for the handle of the sample text. *)
Lemma rotation_handle_turns_one_text_witness :
  - 180 <= startRotation sample_rotate_drag /\
  scale (@handleRotateMove sample_host sample_atan2 sample_rotate_drag
           (mkMouseEvent 70 130 false))
  = scale (rd_design sample_rotate_drag).
Proof.
  assert (Hstart : - 180 <= startRotation sample_rotate_drag)
    by (vm_compute; discriminate).
  split; [exact Hstart | ].
  destruct (@rotation_handle_turns_one_text sample_host sample_atan2
              sample_rotate_drag (mkMouseEvent 70 130 false) Hstart)
    as (_ & Hs & _).
  exact Hs.
Defined.

(** X11 for a text typed with leading blanks. *)
Lemma added_text_is_painted_on_top_witness :
  sample_trim (textInput sample_controls) <> "" /\
  snd (handleAddText sample_trim "text-2" (Some sample_model) sample_controls
                     sample_design)
  = mkTextControls "" "Roboto" "#1e293b" (Some "text-2").
Proof.
  assert (Hne : sample_trim (textInput sample_controls) <> "")
    by (vm_compute; discriminate).
  split; [exact Hne | ].
  destruct (@added_text_is_painted_on_top sample_host sample_trim "text-2"
              sample_model sample_controls sample_design 300 500)
    as (_ & _ & Hadd).
  destruct (Hadd Hne) as (_ & _ & Hc & _). exact Hc.
Defined.

(** X12: adding a text with a fresh identifier and deleting it again. *)
Lemma delete_text_removes_one_identifier_witness :
  texts_of (delete_text "text-2"
              (fst (handleAddText sample_trim "text-2" (Some sample_model)
                                  sample_controls sample_design)))
  = texts_of sample_design.
Proof.
  destruct (delete_text_removes_one_identifier sample_trim "text-2" sample_model
              sample_controls sample_design) as (_ & _ & _ & Hundo).
  apply Hundo.
  - vm_compute. discriminate.
  - intros t [<- | []]. discriminate.
Defined.

(** X13 with the sample text selected. *)
Lemma colour_goes_to_the_selected_text_or_to_all_witness :
  selected_id sample_selection = Some "text-1" /\
  snd (change_color "#ff0000" sample_selection sample_design) = sample_selection.
Proof.
  split; [reflexivity | ].
  destruct (colour_goes_to_the_selected_text_or_to_all sample_trim "#ff0000"
              sample_selection sample_design) as (Hsel & _).
  destruct (Hsel "text-1" eq_refl) as [_ Hc]; [discriminate | exact Hc].
Defined.

(** X14 for an image of 100 x 900. *)
Lemma upload_refuses_small_images_and_resets_the_design_witness :
  image_uploaded sample_model "data:a" "data:b" 100 900 sample_design
  = (sample_design, Some resolution_too_low).
Proof.
  destruct (upload_refuses_small_images_and_resets_the_design sample_model
              "data:a" "data:b" 100 900 sample_design sample_moved_design)
    as [Hsmall _].
  apply Hsmall. left. reflexivity.
Defined.

(** X15 for an image of 4000 x 3000. *)
Lemma optimized_size_keeps_the_aspect_ratio_witness :
  fst (optimized_size 4000 3000) * 3000 == snd (optimized_size 4000 3000) * 4000 /\
  Qmax (fst (optimized_size 4000 3000)) (snd (optimized_size 4000 3000)) == 1500.
Proof.
  destruct (optimized_size_keeps_the_aspect_ratio 4000 3000)
    as (Hr & _ & _ & _ & _ & _ & Hmax); [reflexivity | reflexivity | ].
  split; [exact Hr | ]. apply Hmax. left. reflexivity.
Defined.

(** X16 for an image of 4000 x 3000 on the sample model. *)
Lemma uploaded_image_covers_the_case_witness :
  let d' := fst (image_uploaded sample_model "data:a" "data:b" 4000 3000
                                sample_design) in
  width sample_model <= scale d' * fst (optimized_size 4000 3000) /\
  height sample_model <= scale d' * snd (optimized_size 4000 3000) /\
  fit_to_case sample_model d' = d'.
Proof.
  destruct (uploaded_image_covers_the_case sample_model "data:a" "data:b"
              4000 3000 sample_design)
    as (_ & _ & Hw & Hh & Hfit);
    [vm_compute; discriminate | vm_compute; discriminate
     | reflexivity | reflexivity | ].
  split; [exact Hw | split; [exact Hh | exact Hfit]].
Defined.

(** X18 for one good and one unreadable file. *)
Lemma template_upload_adds_the_accepted_files_witness :
  exists m,
    In m (resolved_models sample_files) /\ path_truthy (svgPath m) = true /\
    selectedModel (handleTemplateUpload true sample_files sample_templates)
    = Some m.
Proof.
  destruct (template_upload_adds_the_accepted_files sample_files sample_templates)
    as (_ & _ & _ & _ & _ & Hall & Hsel).
  destruct (resolved_models sample_files) as [ | m ms] eqn:E;
    [vm_compute in E; discriminate E | ].
  exists m. split; [left; reflexivity | split; [ | exact Hsel]].
  apply Hall. left. reflexivity.
Defined.

(** X19 for two templates, the first one selected. *)
Lemma delete_model_removes_the_selected_one_witness :
  selectedModel sample_templates = Some sample_model /\
  availableModels (handleDeleteModel true sample_templates)
  = filter (fun m => negb (id m =? id sample_model))
           (availableModels sample_templates).
Proof.
  split; [reflexivity | ].
  destruct (delete_model_removes_the_selected_one true sample_templates)
    as (_ & _ & _ & Hdel).
  destruct (Hdel sample_model eq_refl) as (Hav & _); [apply le_n | exact Hav].
Defined.

(** X20 for the sample templates. *)
Lemma selection_effect_makes_the_selection_valid_witness :
  selectedModel (ensure_selection sample_templates) = Some sample_model /\
  exists m, In m (availableModels sample_templates) /\ id m = id sample_model.
Proof.
  assert (Hsel : selectedModel (ensure_selection sample_templates)
                 = Some sample_model) by reflexivity.
  split; [exact Hsel | ].
  destruct (selection_effect_makes_the_selection_valid sample_templates)
    as (_ & _ & Hvalid & _).
  exact (Hvalid sample_model Hsel).
Defined.

(** X21 for the sample design on the sample model. *)
Lemma order_is_recorded_with_its_print_file_witness :
  exists pf order,
    @generatePrintFile sample_host true (Some (300, 500)) sample_model
                       sample_design = Resolved pf /\
    @handleSubmitOrder sample_host "order-1" 1700000000 true (Some (300, 500))
                       sample_design (Some sample_model) sample_shop
    = (mkShop (order :: orders sample_shop) SUCCESS, None) /\
    order_id order = "order-1" /\ printFileUrl order = pf.
Proof.
  destruct (@generatePrintFile sample_host true (Some (300, 500)) sample_model
                               sample_design) as [pf | msg] eqn:E;
    [ | vm_compute in E; discriminate E].
  destruct (@order_is_recorded_with_its_print_file sample_host "order-1"
              1700000000 true (Some (300, 500)) sample_design
              (Some sample_model) sample_shop) as [Hrec _].
  destruct (Hrec sample_model pf eq_refl eq_refl E)
    as (order & Hres & Hid & _ & _ & _ & Hpf & _).
  exists pf, order.
  split; [reflexivity | split; [exact Hres | split; [exact Hid | exact Hpf]]].
Defined.

(** X22: submitting the sample design and deleting the order again. *)
Lemma delete_order_undoes_a_submission_witness :
  orders
    (handleDeleteOrder true "order-1"
       (fst (@handleSubmitOrder sample_host "order-1" 1700000000 true
               (Some (300, 500)) sample_design (Some sample_model) sample_shop)))
  = orders sample_shop.
Proof.
  destruct (@generatePrintFile sample_host true (Some (300, 500)) sample_model
                               sample_design) as [pf | msg] eqn:E;
    [ | vm_compute in E; discriminate E].
  destruct (@delete_order_undoes_a_submission sample_host "order-1" 1700000000
              true (Some (300, 500)) sample_design sample_model sample_shop pf)
    as (_ & _ & _ & Hundo).
  apply Hundo; [reflexivity | exact E | intros o []].
Defined.

(** X23 for a pointer a quarter along a bar of width 200. *)
Lemma spectrum_bar_picks_a_colour_of_the_hue_circle_witness :
  exists position hex,
    updateColor (Some (10, 200)) 60 = Some (position, hex) /\
    0 <= position /\ position <= 100 /\
    exists r g b : Z, saturated r g b = true /\ hex = rgb_hex r g b.
Proof.
  apply (spectrum_bar_picks_a_colour_of_the_hue_circle 10 200 60).
  nonzero.
Defined.

(** X24 for an orange. *)
Lemma hue_circle_colour_round_trip_witness :
  saturated 255 128 0 = true /\
  positionToHex (hexToPosition (rgb_hex 255 128 0)) = rgb_hex 255 128 0.
Proof.
  split; [reflexivity | ].
  apply (hue_circle_colour_round_trip 255 128 0). reflexivity.
Defined.

(** X26 for a grey and for a string that is no colour. *)
Lemma grey_or_unreadable_colour_is_at_the_left_end_witness :
  hexToPosition "#808080" == 0 /\ hexToPosition "none" == 0.
Proof.
  split.
  - apply (grey_or_unreadable_colour_is_at_the_left_end "#808080").
    right; right; right. split; reflexivity.
  - apply (grey_or_unreadable_colour_is_at_the_left_end "none").
    left. reflexivity.
Defined.

(** X27 for the sample document. *)
Lemma synthesized_safe_zone_is_inset_by_the_width_witness :
  exists m,
    processSingleTemplate "a.svg" "custom-3" sample_document = Resolved m /\
    draws_rect (safeZonePath m)
               (nullish_num (minX m) 0 + width m * 0.05)
               (nullish_num (minY m) 0 + width m * 0.05)
               (width m - 2 * (width m * 0.05))
               (height m - 2 * (width m * 0.05)) = true.
Proof.
  destruct (processSingleTemplate "a.svg" "custom-3" sample_document)
    as [m | msg] eqn:E; [ | vm_compute in E; discriminate E].
  exists m. split; [reflexivity | ].
  apply (synthesized_safe_zone_is_inset_by_the_width
           "a.svg" "custom-3" sample_document m E eq_refl).
  vm_compute in E. injection E as <-. vm_compute. discriminate.
Defined.
